(** * Drift detection and diff of the resource manager (pkg/resmgr) and the
    apply command (cmd/kustomizer): a shallow embedding and its properties.

    Objects are [unstructured.Unstructured] values: a tree of JSON values
    whose maps are kept as association lists, the order of the list being
    the order in which the Go runtime enumerates the keys of the map. *)

From Stdlib Require Import ZArith Floats.SpecFloat.
From stdpp Require Import base option list strings gmap.

Local Open Scope string_scope.
Set Warnings "-register-all".

(** ** JSON values held by an unstructured object *)

Module unstructured.

(** The dynamic types an [interface{}] of an unstructured object can hold
    after JSON decoding: nil, bool, int64, float64, string, []interface{}
    and map[string]interface{}. *)
Inductive value : Type :=
| VNil
| VBool (b : bool)
| VInt (z : Z)
| VFloat (f : spec_float)
| VString (s : string)
| VList (l : list value)
| VMap (m : list (string * value)).

(** [Unstructured.Object], a map[string]interface{}. *)
Definition Unstructured : Type := list (string * value).

(** Go's [m[k]]: the value and whether the key is present. *)
Fixpoint index {A : Type} (m : list (string * A)) (k : string) : option A :=
  match m with
  | [] => None
  | (k', v) :: r => if String.eqb k k' then Some v else index r k
  end.

(** Go's [delete(m, k)]. *)
Fixpoint delete_key {A : Type} (k : string) (m : list (string * A)) : list (string * A) :=
  match m with
  | [] => []
  | (k', v) :: r => if String.eqb k k' then delete_key k r else (k', v) :: delete_key k r
  end.

(** Go's [m[k] = v]: the value is replaced in place when the key is
    present, a new key is added otherwise. *)
Fixpoint assign {A : Type} (k : string) (v : A) (m : list (string * A)) : list (string * A) :=
  match m with
  | [] => [(k, v)]
  | (k', v') :: r => if String.eqb k k' then (k, v) :: r else (k', v') :: assign k v r
  end.

Definition keys {A : Type} (m : list (string * A)) : list string := map fst m.

(** The three results of the nested accessors: found, not found, and the
    accessor error raised when a path crosses a value that is not a map. *)
Inductive nested (A : Type) : Type :=
| Found (a : A)
| Missing
| AccessorError.
Arguments Found {A} a.
Arguments Missing {A}.
Arguments AccessorError {A}.

(** [NestedFieldNoCopy]: walks [fields] from the object. *)
Fixpoint NestedFieldNoCopy_from (val : value) (fields : list string) : nested value :=
  match fields with
  | [] => Found val
  | field :: rest =>
      match val with
      | VNil => Missing
      | VMap m =>
          match index m field with
          | Some v => NestedFieldNoCopy_from v rest
          | None => Missing
          end
      | _ => AccessorError
      end
  end.

Definition NestedFieldNoCopy (obj : Unstructured) (fields : list string) : nested value :=
  NestedFieldNoCopy_from (VMap obj) fields.

(** [NestedString] behind [getNestedString]: the empty string unless the
    path leads to a string. *)
Definition getNestedString (obj : Unstructured) (fields : list string) : string :=
  match NestedFieldNoCopy obj fields with
  | Found (VString s) => s
  | _ => ""
  end.

(** The conversion loop of [NestedStringMap]: fails at the first value
    that is not a string. *)
Fixpoint toStringMap (m : list (string * value)) : option (list (string * string)) :=
  match m with
  | [] => Some []
  | (k, VString s) :: r =>
      match toStringMap r with
      | Some r' => Some ((k, s) :: r')
      | None => None
      end
  | _ :: _ => None
  end.

(** [NestedStringMap] with its error and found flag dropped, as
    [GetLabels] and [GetAnnotations] do: a nil map on any failure. *)
Definition nestedStringMapOrNil (obj : Unstructured) (fields : list string) : list (string * string) :=
  match NestedFieldNoCopy obj fields with
  | Found (VMap m) =>
      match toStringMap m with
      | Some sm => sm
      | None => []
      end
  | _ => []
  end.

Definition GetResourceVersion (u : Unstructured) : string :=
  getNestedString u ["metadata"; "resourceVersion"].
Definition GetKind (u : Unstructured) : string := getNestedString u ["kind"].
Definition GetNamespace (u : Unstructured) : string :=
  getNestedString u ["metadata"; "namespace"].
Definition GetName (u : Unstructured) : string :=
  getNestedString u ["metadata"; "name"].
Definition GetLabels (u : Unstructured) : list (string * string) :=
  nestedStringMapOrNil u ["metadata"; "labels"].
Definition GetAnnotations (u : Unstructured) : list (string * string) :=
  nestedStringMapOrNil u ["metadata"; "annotations"].

(** [RemoveNestedField]: follows all but the last field through maps,
    returns without a change when one of them is not a map, and deletes
    the last field from the map reached. *)
Fixpoint RemoveNestedField (obj : list (string * value)) (fields : list string)
  : list (string * value) :=
  match fields with
  | [] => obj
  | [last] => delete_key last obj
  | field :: rest =>
      match index obj field with
      | Some (VMap x) => assign field (VMap (RemoveNestedField x rest)) obj
      | _ => obj
      end
  end.

End unstructured.

(** ** Semantic deep-derivative equality (apimachinery's [Equalities]) *)

Module apiequality.
Import unstructured.

(** The result of a comparison: [Some b] when it returns [b], [None] when
    it panics. Only the entry point panics: [DeepDerivative] asks
    [reflect.ValueOf(a2)] for its [Type()], which panics on the zero Value
    that [reflect.ValueOf(nil)] is. Inside the walk a second operand that
    is not there (the zero Value that [MapIndex] returns for a key the map
    lacks, or [Elem] of a nil interface) is not a panic: the comparison
    returns false. *)
Definition outcome : Type := option bool.

(** Go's [==] on float64: IEEE equality. *)
Definition float_eq (f1 f2 : spec_float) : bool := SFeqb f1 f2.

(** [deepValueDerive] on the values of an unstructured object. The first
    operand decides: nil, the empty string, the empty slice and the empty
    map are derivatives of anything of their type; operands of different
    dynamic types are not derivatives, and neither is a value that is not
    nil of a nil one or of a key that the second map lacks; scalars are
    compared with [==]. The result is always [Some _]: the type is the one
    of [DeepDerivative], which the walk serves. The test
    [v1.Pointer() == v2.Pointer()] is left out: values carry no address
    here and the operands of [hasDrifted] are distinct copies. *)
Fixpoint deepValueDerive (v1 v2 : value) {struct v1} : outcome :=
  match v1 with
  | VNil => Some true
  | VBool b1 =>
      match v2 with
      | VNil => Some false
      | VBool b2 => Some (Bool.eqb b1 b2)
      | _ => Some false
      end
  | VInt z1 =>
      match v2 with
      | VNil => Some false
      | VInt z2 => Some (Z.eqb z1 z2)
      | _ => Some false
      end
  | VFloat f1 =>
      match v2 with
      | VNil => Some false
      | VFloat f2 => Some (float_eq f1 f2)
      | _ => Some false
      end
  | VString s1 =>
      match v2 with
      | VNil => Some false
      | VString s2 => if Nat.eqb (String.length s1) 0 then Some true else Some (String.eqb s1 s2)
      | _ => Some false
      end
  | VList l1 =>
      match v2 with
      | VNil => Some false
      | VList l2 =>
          if Nat.eqb (length l1) 0 then Some true
          else if Nat.ltb (length l2) (length l1) then Some false
          else
            (fix loop (xs ys : list value) {struct xs} : outcome :=
               match xs, ys with
               | [], _ => Some true
               | _ :: _, [] => Some false
               | x :: xs', y :: ys' =>
                   match deepValueDerive x y with
                   | Some true => loop xs' ys'
                   | r => r
                   end
               end) l1 l2
      | _ => Some false
      end
  | VMap m1 =>
      match v2 with
      | VNil => Some false
      | VMap m2 =>
          if Nat.eqb (length m1) 0 then Some true
          else if Nat.ltb (length m2) (length m1) then Some false
          else
            (fix loop (kvs : list (string * value)) {struct kvs} : outcome :=
               match kvs with
               | [] => Some true
               | (k, x) :: kvs' =>
                   match index m2 k with
                   | None => Some false
                   | Some y =>
                       match deepValueDerive x y with
                       | Some true => loop kvs'
                       | r => r
                       end
                   end
               end) m1
      | _ => Some false
      end
  end.

(** The loops of the slice and of the map case on their own, as
    [deepValueDerive] runs them. *)
Definition deriveSlice : list value -> list value -> outcome :=
  fix loop (xs ys : list value) {struct xs} : outcome :=
    match xs, ys with
    | [], _ => Some true
    | _ :: _, [] => Some false
    | x :: xs', y :: ys' =>
        match deepValueDerive x y with
        | Some true => loop xs' ys'
        | r => r
        end
    end.

Definition deriveEntries (m2 : list (string * value)) : list (string * value) -> outcome :=
  fix loop (kvs : list (string * value)) {struct kvs} : outcome :=
    match kvs with
    | [] => Some true
    | (k, x) :: kvs' =>
        match index m2 k with
        | None => Some false
        | Some y =>
            match deepValueDerive x y with
            | Some true => loop kvs'
            | r => r
            end
        end
    end.

(** A map[string]string seen as a map[string]interface{}. *)
Definition inject (m : list (string * string)) : list (string * value) :=
  map (fun ks => (fst ks, VString (snd ks))) m.

(** [Semantic.DeepDerivative(a1, a2)] on two [interface{}] operands: a nil
    [a1] is a derivative of anything; otherwise the types of the two are
    compared first, which panics when [a2] is nil. *)
Definition DeepDerivative (a1 a2 : value) : outcome :=
  match a1, a2 with
  | VNil, _ => Some true
  | _, VNil => None
  | _, _ => deepValueDerive a1 a2
  end.

(** [Semantic.DeepDerivative] on two map[string]string operands, as it is
    called on labels and annotations; [[]] stands for the nil map and for
    the empty one, which the comparison does not tell apart. Neither
    operand is a nil interface, so this call does not panic. *)
Definition DeepDerivativeStringMap (m1 m2 : list (string * string)) : outcome :=
  if Nat.eqb (length m1) 0 then Some true
  else if Nat.ltb (length m2) (length m1) then Some false
  else
    (fix loop (kvs : list (string * string)) {struct kvs} : outcome :=
       match kvs with
       | [] => Some true
       | (k, s1) :: kvs' =>
           match index m2 k with
           | None => Some false
           | Some s2 =>
               if Nat.eqb (String.length s1) 0 then loop kvs'
               else if String.eqb s1 s2 then loop kvs' else Some false
           end
       end) m1.

(** *** Relations between values, used to state the properties *)

(** Go's [==] on two scalars of the same dynamic type. *)
Definition scalarEqual (v1 v2 : value) : bool :=
  match v1, v2 with
  | VBool b1, VBool b2 => Bool.eqb b1 b2
  | VInt z1, VInt z2 => Z.eqb z1 z2
  | VFloat f1, VFloat f2 => float_eq f1 f2
  | VString s1, VString s2 => String.eqb s1 s2
  | _, _ => false
  end.

(** A scalar that [deepValueDerive] does not take for unset: a bool, a
    number, or a string that is not empty. *)
Definition setScalar (v : value) : bool :=
  match v with
  | VBool _ | VInt _ | VFloat _ => true
  | VString s => negb (Nat.eqb (String.length s) 0)
  | _ => false
  end.



Definition isNaN (f : spec_float) : bool :=
  match f with
  | S754_nan => true
  | _ => false
  end.

(** What JSON decoding produces: no NaN (JSON has no literal for it) and,
    the maps being Go maps, no key twice. *)
Fixpoint wellFormed (v : value) : bool :=
  match v with
  | VFloat f => negb (isNaN f)
  | VList l => forallb wellFormed l
  | VMap m =>
      bool_decide (NoDup (keys m)) && forallb (fun kv => wellFormed (snd kv)) m
  | _ => true
  end.

(** The same value up to the order in which the keys of its maps are
    enumerated. *)
Inductive reorder : value -> value -> Prop :=
| reorder_nil : reorder VNil VNil
| reorder_bool b : reorder (VBool b) (VBool b)
| reorder_int z : reorder (VInt z) (VInt z)
| reorder_float f : reorder (VFloat f) (VFloat f)
| reorder_string s : reorder (VString s) (VString s)
| reorder_list l l' :
    Forall2 reorder l l' -> reorder (VList l) (VList l')
| reorder_map m m' :
    NoDup (keys m) -> NoDup (keys m') ->
    (forall k x, (k, x) ∈ m -> exists x', (k, x') ∈ m' /\ reorder x x') ->
    (forall k x', (k, x') ∈ m' -> exists x, (k, x) ∈ m /\ reorder x x') ->
    reorder (VMap m) (VMap m').

(** [extends v v']: [v'] is [v] with more fields, at any depth of its
    maps. *)
Inductive extends : value -> value -> Prop :=
| extends_refl v : extends v v
| extends_list l l' :
    Forall2 extends l l' -> extends (VList l) (VList l')
| extends_map m m' :
    NoDup (keys m) -> NoDup (keys m') ->
    (forall k x, (k, x) ∈ m -> exists x', (k, x') ∈ m' /\ extends x x') ->
    extends (VMap m) (VMap m').

End apiequality.

(** ** The resource manager: pkg/resmgr/manager_diff.go *)

Module resmgr.
Import unstructured apiequality.

(** Go errors: an API status error of the client, or an error built by
    [fmt.Errorf], whose text already holds the text of the error it wraps
    with [%w]. *)
Inductive error : Type :=
| StatusError (notFound : bool) (message : string)
| Errorf (text : string) (wrapped : option error).

Definition Error (e : error) : string :=
  match e with
  | StatusError _ m => m
  | Errorf t _ => t
  end.

(** [apierrors.IsNotFound]: the reason of the status error found along the
    chain of wrapped errors. *)
Fixpoint IsNotFound (e : error) : bool :=
  match e with
  | StatusError nf _ => nf
  | Errorf _ (Some w) => IsNotFound w
  | Errorf _ None => false
  end.

(** Modelled from the spec: the Action type, declared outside
    manager_diff.go; the spec lists its six values. *)
Inductive Action : Type :=
| CreatedAction
| ConfiguredAction
| UnchangedAction
| SkippedAction
| DeletedAction
| FailedAction.

(** Modelled from the spec: the Change-Set Entry, declared outside
    manager_diff.go: the object's identity, the action and the optional
    diff text ([cse.Diff] in [Diff]). *)
Record ChangeSetEntry : Type := {
  Subject : string;
  EntryAction : Action;
  Diff_text : string
}.

(** Modelled from the spec: [ResourceFormatter.Unstructured], declared
    outside manager_diff.go: the human-addressed identity of the object,
    kind/namespace/name. *)
Definition FmtUnstructured (u : Unstructured) : string :=
  GetKind u ++ "/" ++ GetNamespace u ++ "/" ++ GetName u.

(** Modelled from the spec: [changeSetEntry], declared outside
    manager_diff.go: a fresh entry for the object with the action decided
    and no diff text. *)
Definition changeSetEntry (u : Unstructured) (action : Action) : ChangeSetEntry :=
  {| Subject := FmtUnstructured u; EntryAction := action; Diff_text := "" |}.

(** Modelled from the spec: [ResourceFormatter.MaskSecret], declared
    outside manager_diff.go: every value of the Secret's [data] is replaced
    by the mask token ("the data values are masked", in the comment of
    [Diff]); the source shows that it can fail, which is taken to be when
    [data] is not a map. *)
Definition MaskSecret (u : Unstructured) (mask : string) : error + Unstructured :=
  match index u "data" with
  | None => inr u
  | Some (VMap data) =>
      inr (assign "data" (VMap (map (fun kv => (fst kv, VString mask)) data)) u)
  | Some _ => inl (Errorf ".data accessor error" None)
  end.

(** [hasDrifted]: [None] is a panic of a comparison, that of the body when
    the field of the existing object is null and that of the dry-run
    object is not. *)
Definition hasDrifted (existingObject dryRunObject : Unstructured) : option bool :=
  if String.eqb (GetResourceVersion dryRunObject) "" then Some true
  else
    match DeepDerivativeStringMap (GetLabels dryRunObject) (GetLabels existingObject) with
    | None => None
    | Some false => Some true
    | Some true =>
        match DeepDerivativeStringMap (GetAnnotations dryRunObject)
                (GetAnnotations existingObject) with
        | None => None
        | Some false => Some true
        | Some true =>
            match index existingObject "spec" with
            | Some espec =>
                match DeepDerivative (default VNil (index dryRunObject "spec")) espec with
                | None => None
                | Some false => Some true
                | Some true => Some false
                end
            | None =>
                match index existingObject "webhooks" with
                | Some ewebhooks =>
                    match DeepDerivative (default VNil (index dryRunObject "webhooks"))
                            ewebhooks with
                    | None => None
                    | Some false => Some true
                    | Some true => Some false
                    end
                | None =>
                    match DeepDerivative (VMap dryRunObject) (VMap existingObject) with
                    | None => None
                    | Some false => Some true
                    | Some true => Some false
                    end
                end
            end
        end
    end.

(** [validationError]. *)
Definition validationError (object : Unstructured) (err : error) : error :=
  if IsNotFound err then
    Errorf (FmtUnstructured object ++ " namespace not specified, error: " ++ Error err)
      (Some err)
  else if String.eqb (GetKind object) "Secret" then
    Errorf (FmtUnstructured object ++ " is invalid, error: data values must be of type string")
      None
  else
    Errorf (FmtUnstructured object ++ " is invalid, error: " ++ Error err) (Some err).

(** The mask tokens of [Diff]. *)
Definition dryRunMask : string := "******".
Definition existingMask : string := "*****".

(** *** The store of objects

    [Diff] receives a pointer and works on copies of the object behind it:
    objects live in a store of cells, [DeepCopy] allocates a fresh cell,
    and a callee can write only the cells it is handed. [None] is a panic
    (here a dangling pointer, or a panic of a comparison). *)

Abbreviation loc := positive.
Abbreviation heap := (gmap loc Unstructured).

Definition M (A : Type) : Type := heap -> option A * heap.

Definition ret {A : Type} (a : A) : M A := fun h => (Some a, h).

Definition bind {A B : Type} (k : A -> M B) (m : M A) : M B :=
  fun h =>
    match m h with
    | (Some a, h') => k a h'
    | (None, h') => (None, h')
    end.

#[global] Instance M_ret : MRet M := @ret.
#[global] Instance M_bind : MBind M := @bind.

Definition load (l : loc) : M Unstructured :=
  fun h => (h !! l, h).

Definition store (l : loc) (u : Unstructured) : M unit :=
  fun h => (Some tt, <[l := u]> h).

Definition alloc (u : Unstructured) : M loc :=
  fun h => let l := fresh (dom h) in (Some l, <[l := u]> h).

Definition panicking {A : Type} (o : option A) : M A :=
  fun h => (o, h).

(** [object.DeepCopy()]: a new cell with the same content; values are
    immutable trees, so the copy shares nothing with its source. *)
Definition DeepCopy (l : loc) : M loc :=
  u ← load l; alloc u.

(** [client.ObjectKey]: namespace and name. *)
Definition ObjectKey : Type := (string * string)%type.

Section Manager.

(** The cluster behind [kc.kubeClient] and the collaborators of [Diff]
    that live outside the repository. *)

(** [kubeClient.Get(ctx, key, obj)]: what the cluster answers for the key
    and the object handed in (its kind selects the resource): the live
    object, decoded into [obj], or an error, which leaves [obj] as it
    was. *)
Variable kubeGet : ObjectKey -> Unstructured -> error + Unstructured.

(** [kc.dryRunApply(ctx, obj)], declared outside manager_diff.go: the
    server-side apply with the dry-run option; it writes the answer of the
    server into [obj] and may return an error. *)
Variable dryRunApplyServer : Unstructured -> option error * Unstructured.

(** [yaml.Marshal] with its error dropped, and [cmp.Diff] on strings. *)
Variable yamlMarshal : Unstructured -> string.
Variable cmpDiff : string -> string -> string.

Definition ObjectKeyFromObject (u : Unstructured) : ObjectKey :=
  (GetNamespace u, GetName u).

Definition Get (key : ObjectKey) (obj : loc) : M (option error) :=
  u ← load obj;
  match kubeGet key u with
  | inl err => ret (Some err)
  | inr live => store obj live;; ret None
  end.

Definition dryRunApply (obj : loc) : M (option error) :=
  u ← load obj;
  let (err, u') := dryRunApplyServer u in
  store obj u';; ret err.

Definition removeNestedField (obj : loc) (fields : list string) : M unit :=
  u ← load obj; store obj (RemoveNestedField u fields).

(** [kc.fmt.MaskSecret(obj, mask)] on the store: the object is masked in
    place and its pointer returned. *)
Definition maskSecret (obj : loc) (mask : string) : M (error + loc) :=
  u ← load obj;
  match MaskSecret u mask with
  | inl err => ret (inl err)
  | inr u' => store obj u';; ret (inr obj)
  end.

(** [Diff]: the Go pair (entry, error) is a sum. *)
Definition Diff (object : loc) : M (error + ChangeSetEntry) :=
  existingObject ← DeepCopy object;
  o ← load object;
  _ ← Get (ObjectKeyFromObject o) existingObject;
  dryRunObject ← DeepCopy object;
  err ← dryRunApply dryRunObject;
  d ← load dryRunObject;
  match err with
  | Some err => ret (inl (validationError d err))
  | None =>
      if String.eqb (GetResourceVersion d) "" then
        ret (inr (changeSetEntry d CreatedAction))
      else
        e ← load existingObject;
        drifted ← panicking (hasDrifted e d);
        if drifted : bool then
          o ← load object;
          let cse := changeSetEntry o ConfiguredAction in
          removeNestedField dryRunObject ["metadata"; "managedFields"];;
          removeNestedField existingObject ["metadata"; "managedFields"];;
          d ← load dryRunObject;
          masked ←
            (if String.eqb (GetKind d) "Secret" then
               r ← maskSecret dryRunObject dryRunMask;
               match r with
               | inl err =>
                   ret (inl (Errorf ("masking secret data failed, error: " ++ Error err)
                               (Some err)))
               | inr dl =>
                   r ← maskSecret existingObject existingMask;
                   match r with
                   | inl err =>
                       ret (inl (Errorf ("masking secret data failed, error: " ++ Error err)
                                   (Some err)))
                   | inr el => ret (inr (el, dl))
                   end
               end
             else ret (inr (existingObject, dryRunObject)));
          match masked with
          | inl err => ret (inl err)
          | inr (existingObject, dryRunObject) =>
              dy ← load dryRunObject;
              ey ← load existingObject;
              ret (inr {| Subject := Subject cse;
                          EntryAction := EntryAction cse;
                          Diff_text := cmpDiff (yamlMarshal ey) (yamlMarshal dy) |})
          end
        else
          ret (inr (changeSetEntry d UnchangedAction))
  end.

(** *** The result of [Diff] as a function of the caller's object

    The same steps on values instead of cells; [Diff_run] below shows that
    [Diff] returns exactly this. *)

(** The content of [existingObject] after the call of [Get]. *)
Definition existingAfterGet (o : Unstructured) : Unstructured :=
  match kubeGet (ObjectKeyFromObject o) o with
  | inl _ => o
  | inr live => live
  end.

Definition maskingFailed (err : error) : error :=
  Errorf ("masking secret data failed, error: " ++ Error err) (Some err).

(** The entry of the drifted branch, from the two objects that reach
    [yaml.Marshal]. *)
Definition renderDiff (o e d : Unstructured) : ChangeSetEntry :=
  {| Subject := Subject (changeSetEntry o ConfiguredAction);
     EntryAction := EntryAction (changeSetEntry o ConfiguredAction);
     Diff_text := cmpDiff (yamlMarshal e) (yamlMarshal d) |}.

(** The two objects handed to [yaml.Marshal] in the drifted branch:
    existing first, or the error of the masking. *)
Definition rendered (e d : Unstructured) : error + Unstructured * Unstructured :=
  let d1 := RemoveNestedField d ["metadata"; "managedFields"] in
  let e1 := RemoveNestedField e ["metadata"; "managedFields"] in
  if String.eqb (GetKind d1) "Secret" then
    match MaskSecret d1 dryRunMask with
    | inl err => inl (maskingFailed err)
    | inr d2 =>
        match MaskSecret e1 existingMask with
        | inl err => inl (maskingFailed err)
        | inr e2 => inr (e2, d2)
        end
    end
  else inr (e1, d1).

Definition configured (o e d : Unstructured) : error + ChangeSetEntry :=
  match rendered e d with
  | inl err => inl err
  | inr (e', d') => inr (renderDiff o e' d')
  end.

Definition diffOutcome (o : Unstructured) : option (error + ChangeSetEntry) :=
  let e := existingAfterGet o in
  let d := snd (dryRunApplyServer o) in
  match fst (dryRunApplyServer o) with
  | Some err => Some (inl (validationError d err))
  | None =>
      if String.eqb (GetResourceVersion d) "" then
        Some (inr (changeSetEntry d CreatedAction))
      else
        match hasDrifted e d with
        | None => None
        | Some true => Some (configured o e d)
        | Some false => Some (inr (changeSetEntry d UnchangedAction))
        end
  end.

End Manager.

(** Weakest precondition of a computation on the store. *)
Definition wp {A : Type} (m : M A) (h : heap) (Q : option A -> heap -> Prop) : Prop :=
  Q (fst (m h)) (snd (m h)).

(** The cells of [h] are the same in [h']. *)
Definition frame (h h' : heap) : Prop :=
  forall l, is_Some (h !! l) -> h' !! l = h !! l.

(** *** The checks of [hasDrifted], in the words of its description *)

(** The one part of the body that is compared. *)
Inductive bodyScope : Type :=
| ScopeSpec
| ScopeWebhooks
| ScopeObject.

(** [spec] if the existing object has it, else [webhooks] if it has it,
    else the whole object. *)
Definition scopeOf (existingObject : Unstructured) : bodyScope :=
  match index existingObject "spec" with
  | Some _ => ScopeSpec
  | None =>
      match index existingObject "webhooks" with
      | Some _ => ScopeWebhooks
      | None => ScopeObject
      end
  end.

Definition field (u : Unstructured) (k : string) : value := default VNil (index u k).

(** The part of an object that a scope selects. *)
Definition scopeValue (scope : bodyScope) (u : Unstructured) : value :=
  match scope with
  | ScopeSpec => field u "spec"
  | ScopeWebhooks => field u "webhooks"
  | ScopeObject => VMap u
  end.

Definition compareScope (scope : bodyScope) (existingObject dryRunObject : Unstructured)
  : outcome :=
  DeepDerivative (scopeValue scope dryRunObject) (scopeValue scope existingObject).

(** The labels and the annotations of the object, when they are maps, hold
    strings only, as the metadata of a Kubernetes object does. *)
Definition stringMetadata (u : Unstructured) : Prop :=
  forall name m,
    NestedFieldNoCopy u ["metadata"; name] = Found (VMap m) -> is_Some (toStringMap m).

(** The three comparisons in their order: labels, annotations, the body
    scope. *)
Definition driftChecks (existingObject dryRunObject : Unstructured) : list outcome :=
  [ DeepDerivativeStringMap (GetLabels dryRunObject) (GetLabels existingObject);
    DeepDerivativeStringMap (GetAnnotations dryRunObject) (GetAnnotations existingObject);
    compareScope (scopeOf existingObject) existingObject dryRunObject ].

(** Drift at the first comparison that does not match, whatever the
    comparisons after it would give; no drift when all match. *)
Fixpoint firstMismatch (checks : list outcome) : option bool :=
  match checks with
  | [] => Some false
  | Some true :: rest => firstMismatch rest
  | Some false :: _ => Some true
  | None :: _ => None
  end.

(** *** Secrets in the output *)

(** Every value of the [data] of the object is the mask token. *)
Definition allDataMasked (mask : string) (u : Unstructured) : Prop :=
  forall data k v, index u "data" = Some (VMap data) -> (k, v) ∈ data -> v = VString mask.


End resmgr.

(** ** The apply command: cmd/kustomizer/apply.go *)

Module kustomizer.
Import unstructured resmgr.

Record applyFlags : Type := {
  filename : list string;
  kustomize : string;
  inventoryName : string;
  inventoryNamespace : string;
  wait : bool;
  force : bool;
  prune : bool
}.

Section ApplyCmd.

(** The state of the cluster, the inventory record being a part of it, and
    the inventory built by [Record]. *)
Variable cluster : Type.
Variable Inventory : Type.

(** The collaborators of [runApplyCmd], all declared outside apply.go:
    each one is what the call answers and the state it leaves. *)
Variable buildManifests : string -> list string -> error + list Unstructured.
Variable Record : list Unstructured -> error + Inventory.
Variable NewResourceManager : option error.
Variable Apply : Unstructured -> bool -> cluster -> (error + ChangeSetEntry) * cluster.
Variable GetStaleObjects :
  Inventory -> string -> string -> cluster -> (error + list Unstructured) * cluster.
Variable Store : Inventory -> string -> string -> cluster -> option error * cluster.
Variable DeleteAll : list Unstructured -> cluster -> (error + list ChangeSetEntry) * cluster.
Variable Wait : list Unstructured -> cluster -> option error * cluster.
Variable WaitForTermination : list Unstructured -> cluster -> option error * cluster.
Variable ChangeString : ChangeSetEntry -> string.

(** The calls made on the cluster, with whether they succeeded. *)
Inductive call : Type :=
| CallApply (object : Unstructured) (ok : bool)
| CallGetStaleObjects (ok : bool)
| CallStore (inventory : Inventory) (ok : bool)
| CallDeleteAll (objects : list Unstructured) (ok : bool)
| CallWait (ok : bool)
| CallWaitForTermination (ok : bool).

(** The state of a run: the cluster, the calls made so far (oldest
    first) and the lines written to the logger. *)
Record run : Type := {
  world : cluster;
  calls : list call;
  logged : list string
}.

(** A command step: it returns a value, or the error the command returns
    at that point. *)
Definition Cmd (A : Type) : Type := run -> (error + A) * run.

Definition cmd_ret {A : Type} (a : A) : Cmd A := fun r => (inr a, r).

Definition cmd_bind {A B : Type} (k : A -> Cmd B) (m : Cmd A) : Cmd B :=
  fun r =>
    match m r with
    | (inr a, r') => k a r'
    | (inl err, r') => (inl err, r')
    end.

#[global] Instance Cmd_ret : MRet Cmd := @cmd_ret.
#[global] Instance Cmd_bind : MBind Cmd := @cmd_bind.

Definition fail {A : Type} (err : error) : Cmd A := fun r => (inl err, r).

(** [x, err := f(); if err != nil { return wrap(err) }] on a pure result. *)
Definition try {A : Type} (wrap : error -> error) (res : error + A) : Cmd A :=
  match res with
  | inl err => fail (wrap err)
  | inr a => mret a
  end.

Definition Println (line : string) : Cmd unit :=
  fun r => (inr tt, {| world := world r; calls := calls r; logged := logged r ++ [line] |}).

(** A call on the cluster: the answer, the new state, and the call
    recorded. *)
Definition invoke {A : Type} (f : cluster -> (error + A) * cluster)
    (record : bool -> call) (wrap : error -> error) : Cmd A :=
  fun r =>
    let (res, w) := f (world r) in
    let ok := match res with inr _ => true | inl _ => false end in
    let r' := {| world := w; calls := calls r ++ [record ok]; logged := logged r |} in
    match res with
    | inl err => (inl (wrap err), r')
    | inr a => (inr a, r')
    end.

Definition status (f : cluster -> option error * cluster) : cluster -> (error + unit) * cluster :=
  fun w =>
    match f w with
    | (Some err, w') => (inl err, w')
    | (None, w') => (inr tt, w')
    end.

Definition wrapf (text : string) (err : error) : error :=
  Errorf (text ++ Error err) (Some err).

(** The loop over the objects: the first failing [Apply] ends the command
    with its error. *)
Fixpoint applyObjects (objects : list Unstructured) (force : bool) : Cmd unit :=
  match objects with
  | [] => mret tt
  | object :: rest =>
      change ← invoke (Apply object force) (CallApply object) id;
      Println (ChangeString change);;
      applyObjects rest force
  end.

Fixpoint printChanges (entries : list ChangeSetEntry) : Cmd unit :=
  match entries with
  | [] => mret tt
  | change :: rest => Println (ChangeString change);; printChanges rest
  end.

Definition runApplyCmd (applyArgs : applyFlags) : Cmd unit :=
  if String.eqb (kustomize applyArgs) "" && Nat.eqb (length (filename applyArgs)) 0 then
    fail (Errorf "-f or -k is required" None)
  else if String.eqb (inventoryName applyArgs) "" then
    fail (Errorf "--inventory-name is required" None)
  else if String.eqb (inventoryNamespace applyArgs) "" then
    fail (Errorf "--inventory-namespace is required" None)
  else
    objects ← try id (buildManifests (kustomize applyArgs) (filename applyArgs));
    newInventory ← try (wrapf "creating inventory failed, error: ") (Record objects);
    _ ← try id (match NewResourceManager with Some err => inl err | None => inr tt end);
    applyObjects objects (force applyArgs);;
    staleObjects ← invoke (GetStaleObjects newInventory (inventoryName applyArgs)
                              (inventoryNamespace applyArgs))
                     CallGetStaleObjects (wrapf "inventory query failed, error: ");
    invoke (status (Store newInventory (inventoryName applyArgs)
                      (inventoryNamespace applyArgs)))
      (CallStore newInventory) (wrapf "inventory apply failed, error: ");;
    (if prune applyArgs && Nat.ltb 0 (length staleObjects) then
       entries ← invoke (DeleteAll staleObjects) (CallDeleteAll staleObjects)
                   (wrapf "prune failed, error: ");
       printChanges entries
     else mret tt);;
    (if wait applyArgs then
       Println "waiting for resources to become ready...";;
       invoke (status (Wait objects)) CallWait id;;
       (if prune applyArgs && Nat.ltb 0 (length staleObjects) then
          invoke (status (WaitForTermination staleObjects)) CallWaitForTermination
            (wrapf "wating for termination failed, error: ")
        else mret tt);;
       Println "all resources are ready"
     else mret tt).

(** The calls that come after the inventory is stored. *)
Definition afterStore (c : call) : bool :=
  match c with
  | CallDeleteAll _ _ | CallWait _ | CallWaitForTermination _ => true
  | _ => false
  end.

Definition isStore (c : call) : bool :=
  match c with
  | CallStore _ _ => true
  | _ => false
  end.

(** A step that adds to the calls of the run, and only calls of the kind
    [P]. *)
Definition adds (P : call -> bool) {A : Type} (m : Cmd A) : Prop :=
  forall r, exists t,
    calls (snd (m r)) = (calls r ++ t)%list /\ forallb P t = true.

End ApplyCmd.

(** The object of an [Apply] call. *)
Definition appliedObject {Inventory : Type} (c : call Inventory) : option Unstructured :=
  match c with
  | CallApply _ object _ => Some object
  | _ => None
  end.

(** The calls that the flags allow after the inventory is stored: the
    deletion of stale objects with [--prune] and some stale object, the
    wait with [--wait], the wait for termination with both. *)
Definition allowedAfterStore {Inventory : Type} (applyArgs : applyFlags)
    (c : call Inventory) : bool :=
  match c with
  | CallDeleteAll _ objects _ => prune applyArgs && Nat.ltb 0 (length objects)
  | CallWait _ _ => wait applyArgs
  | CallWaitForTermination _ _ => wait applyArgs && prune applyArgs
  | _ => false
  end.

End kustomizer.

(** ** The push artifact command: cmd/kustomizer, [runPushArtifactCmd] *)

Module push.
Import unstructured resmgr.

Record pushArtifactFlags : Type := {
  filename : list string;
  kustomize : string;
  patch : list string
}.

(** [registry.Metadata], as the command fills it. *)
Record Metadata : Type := {
  Version : string;
  Checksum : string;
  Created : string
}.

Section PushArtifactCmd.

(** The state of the container registry. *)
Variable registry : Type.

(** The collaborators of the command, all declared outside its file, the
    SHA-256 digest in hexadecimal and the clock. *)
Variable ParseURL : string -> error + string.
Variable buildManifests :
  string -> list string -> list string -> error + list Unstructured.
Variable sortObjects : list Unstructured -> list Unstructured.
Variable FmtUnstructured : Unstructured -> string.
Variable ObjectsToYAML : list Unstructured -> error + string.
Variable Push : string -> string -> Metadata -> registry -> (error + string) * registry.
Variable sha256hex : string -> string.
Variable VERSION : string.
Variable now : string.

(** A call of [registry.Push], with whether it succeeded. *)
Inductive pushCall : Type :=
| CallPush (url yml : string) (meta : Metadata) (ok : bool).

(** The state of a run: the registry, the pushes made, the lines of the
    logger and the lines printed by the command. *)
Record run : Type := {
  remote : registry;
  pushes : list pushCall;
  logged : list string;
  printed : list string
}.

Definition Cmd (A : Type) : Type := run -> (error + A) * run.

Definition cmd_ret {A : Type} (a : A) : Cmd A := fun r => (inr a, r).

Definition cmd_bind {A B : Type} (k : A -> Cmd B) (m : Cmd A) : Cmd B :=
  fun r =>
    match m r with
    | (inr a, r') => k a r'
    | (inl err, r') => (inl err, r')
    end.

#[global] Instance Cmd_ret : MRet Cmd := @cmd_ret.
#[global] Instance Cmd_bind : MBind Cmd := @cmd_bind.

Definition fail {A : Type} (err : error) : Cmd A := fun r => (inl err, r).

Definition try {A : Type} (res : error + A) : Cmd A :=
  match res with
  | inl err => fail err
  | inr a => mret a
  end.

(** [logger.Println]. *)
Definition logPrintln (line : string) : Cmd unit :=
  fun r => (inr tt, {| remote := remote r; pushes := pushes r;
                       logged := logged r ++ [line]; printed := printed r |}).

(** [rootCmd.Println]. *)
Definition cmdPrintln (line : string) : Cmd unit :=
  fun r => (inr tt, {| remote := remote r; pushes := pushes r;
                       logged := logged r; printed := printed r ++ [line] |}).

Fixpoint printObjects (objects : list Unstructured) : Cmd unit :=
  match objects with
  | [] => mret tt
  | object :: rest => cmdPrintln (FmtUnstructured object);; printObjects rest
  end.

(** [registry.Push], its error wrapped. *)
Definition push (url yml : string) (meta : Metadata) : Cmd string :=
  fun r =>
    match Push url yml meta (remote r) with
    | (inl err, reg) =>
        (inl (Errorf ("pushing image failed: " ++ Error err) (Some err)),
         {| remote := reg; pushes := pushes r ++ [CallPush url yml meta false];
            logged := logged r; printed := printed r |})
    | (inr digest, reg) =>
        (inr digest,
         {| remote := reg; pushes := pushes r ++ [CallPush url yml meta true];
            logged := logged r; printed := printed r |})
    end.

Definition runPushArtifactCmd (pushArtifactArgs : pushArtifactFlags) (args : list string)
  : Cmd unit :=
  match args with
  | [] =>
      fail (Errorf "you must specify an artifact name e.g. 'oci://docker.io/user/repo:tag'"
              None)
  | arg0 :: _ =>
      if String.eqb (kustomize pushArtifactArgs) ""
         && Nat.eqb (length (filename pushArtifactArgs)) 0 then
        fail (Errorf "-f or -k is required" None)
      else
        url ← try (ParseURL arg0);
        logPrintln "building manifests...";;
        objects ← try (buildManifests (kustomize pushArtifactArgs)
                         (filename pushArtifactArgs) (patch pushArtifactArgs));
        let objects := sortObjects objects in
        printObjects objects;;
        yml ← try (ObjectsToYAML objects);
        logPrintln ("pushing image " ++ url);;
        digest ← push url yml {| Version := VERSION; Checksum := sha256hex yml;
                                 Created := now |};
        logPrintln ("published digest " ++ digest)
  end.

End PushArtifactCmd.

End push.

(** ** Objects and collaborators for the examples *)

Module fixtures.
Import unstructured apiequality resmgr kustomizer.

(** A ConfigMap with its resource version, one label pair and one data
    value. *)
Definition configMap (rv : string) (labels : list (string * value)) (v : string)
  : Unstructured :=
  [ ("apiVersion", VString "v1");
    ("kind", VString "ConfigMap");
    ("metadata", VMap [ ("name", VString "cfg1");
                        ("namespace", VString "default");
                        ("resourceVersion", VString rv);
                        ("labels", VMap labels) ]);
    ("data", VMap [ ("k", VString v) ]) ].

Definition labelsAB : list (string * value) :=
  [ ("app", VString "web"); ("tier", VString "front") ].
Definition labelsBA : list (string * value) :=
  [ ("tier", VString "front"); ("app", VString "web") ].

(** A Deployment: an object with a [spec]. *)
Definition deployment (rv : string) (image : string) (note : string) : Unstructured :=
  [ ("kind", VString "Deployment");
    ("metadata", VMap [ ("name", VString "web"); ("resourceVersion", VString rv) ]);
    ("spec", VMap [ ("image", VString image); ("replicas", VInt 2) ]);
    ("note", VString note) ].


(** A Deployment whose [spec] is null. *)
Definition deploymentNullSpec (rv : string) : Unstructured :=
  [ ("kind", VString "Deployment");
    ("metadata", VMap [ ("name", VString "web"); ("resourceVersion", VString rv) ]);
    ("spec", VNil) ].

(** A Secret with one data value. *)
Definition secret (rv : string) (password : string) : Unstructured :=
  [ ("kind", VString "Secret");
    ("metadata", VMap [ ("name", VString "db"); ("namespace", VString "prod");
                        ("resourceVersion", VString rv) ]);
    ("data", VMap [ ("password", VString password) ]) ].


Definition getLive (live : Unstructured) : ObjectKey -> Unstructured -> error + Unstructured :=
  fun _ _ => inr live.
Definition getFails (err : error) : ObjectKey -> Unstructured -> error + Unstructured :=
  fun _ _ => inl err.
Definition serverAnswers (d : Unstructured) : Unstructured -> option error * Unstructured :=
  fun _ => (None, d).
Definition serverRejects (err : error) : Unstructured -> option error * Unstructured :=
  fun u => (Some err, u).

(** Stand-ins for the renderers. *)
Definition yamlOf (u : Unstructured) : string :=
  match index u "data" with
  | Some (VMap ((_, VString s) :: _)) => FmtUnstructured u ++ ":" ++ s
  | _ => FmtUnstructured u
  end.
Definition diffOf (a b : string) : string := a ++ " => " ++ b.



Definition heapWith (u : Unstructured) : heap := {[ 1%positive := u ]}.

(** A cluster for the apply command: the state is the inventory record, a
    list of names; [Apply] fails on the object named bad. *)
Definition namesOf (objects : list Unstructured) : list string := map GetName objects.

Definition applyOrFail (o : Unstructured) (_ : bool) (w : list string)
  : (error + ChangeSetEntry) * list string :=
  if String.eqb (GetName o) "bad" then (inl (StatusError false "invalid"), w)
  else (inr (changeSetEntry o CreatedAction), w).

Definition named (name : string) : Unstructured :=
  [ ("kind", VString "ConfigMap"); ("metadata", VMap [ ("name", VString name) ]) ].

Definition flags : applyFlags :=
  {| filename := ["manifests"]; kustomize := ""; inventoryName := "inv";
     inventoryNamespace := "default"; wait := false; force := false; prune := false |}.

Definition emptyRun : run (list string) (list string) :=
  {| world := ["old"]; calls := []; logged := [] |}.

Definition runWith (objects : list Unstructured)
  : (error + unit) * run (list string) (list string) :=
  runApplyCmd (list string) (list string)
    (fun _ _ => inr objects)
    (fun objects => inr (namesOf objects))
    None
    applyOrFail
    (fun _ _ _ w => (inr [], w))
    (fun inventory _ _ _ => (None, inventory))
    (fun _ w => (inr [], w))
    (fun _ w => (None, w))
    (fun _ w => (None, w))
    Subject
    flags emptyRun.

(** The live Deployment: the applied one with a status set by the
    cluster. *)
Definition deploymentLive : Unstructured :=
  [ ("kind", VString "Deployment");
    ("metadata", VMap [ ("name", VString "web"); ("resourceVersion", VString "7") ]);
    ("spec", VMap [ ("image", VString "nginx"); ("replicas", VInt 2) ]);
    ("note", VString "a");
    ("status", VMap [ ("readyReplicas", VInt 2) ]) ].

(** A ConfigMap with the [managedFields] of a server-side apply. *)
Definition managed (rv : string) (v : string) : Unstructured :=
  [ ("kind", VString "ConfigMap");
    ("metadata", VMap [ ("name", VString "cfg1");
                        ("resourceVersion", VString rv);
                        ("managedFields", VList [ VMap [ ("manager", VString "kustomizer") ] ]) ]);
    ("data", VMap [ ("k", VString v) ]) ].

(** A run of the apply command with [--prune] and [--wait], one stale
    object being reported. *)
Definition flagsPruneWait : applyFlags :=
  {| filename := ["manifests"]; kustomize := ""; inventoryName := "inv";
     inventoryNamespace := "default"; wait := true; force := false; prune := true |}.

Definition runPruneWait (objects : list Unstructured)
  : (error + unit) * run (list string) (list string) :=
  runApplyCmd (list string) (list string)
    (fun _ _ => inr objects)
    (fun objects => inr (namesOf objects))
    None
    applyOrFail
    (fun _ _ _ w => (inr [named "old"], w))
    (fun inventory _ _ _ => (None, inventory))
    (fun _ w => (inr [], w))
    (fun _ w => (None, w))
    (fun _ w => (None, w))
    Subject
    flagsPruneWait emptyRun.

(** A registry for the push command: the state counts the pushes. *)
Definition pushFlags : push.pushArtifactFlags :=
  {| push.filename := ["manifests"]; push.kustomize := ""; push.patch := [] |}.

Definition emptyPushRun : push.run nat :=
  {| push.remote := 0; push.pushes := []; push.logged := []; push.printed := [] |}.

Definition runPush (args : list string) : (error + unit) * push.run nat :=
  push.runPushArtifactCmd nat
    (fun s => inr s)
    (fun _ _ _ => inr [named "b"; named "a"])
    (@rev Unstructured)
    GetName
    (fun objects => inr (String.concat "," (map GetName objects)))
    (fun _ _ _ n => (inr "sha256:0a", S n))
    (fun yml => "digest of " ++ yml)
    "v1"
    "2021-10-01T00:00:00Z"
    pushFlags args emptyPushRun.

End fixtures.

(** * Properties *)

Import unstructured apiequality resmgr.

(** ** Running [Diff] on the store *)

Lemma wp_ret {A} (a : A) h Q : Q (Some a) h -> wp (mret a) h Q.
Proof. done. Qed.

Lemma wp_bind {A B} (m : M A) (k : A -> M B) h Q :
  wp m h (fun r h' => match r with Some a => wp (k a) h' Q | None => Q None h' end) ->
  wp (m ≫= k) h Q.
Proof.
  unfold wp, mbind, M_bind, bind. destruct (m h) as [[a|] h']; simpl; auto.
Qed.

Lemma wp_load l u h Q : h !! l = Some u -> Q (Some u) h -> wp (load l) h Q.
Proof. unfold wp, load. simpl. by intros ->. Qed.

Lemma wp_store l u h Q : Q (Some tt) (<[l := u]> h) -> wp (store l u) h Q.
Proof. done. Qed.

Lemma wp_alloc u h Q :
  (forall l, h !! l = None -> Q (Some l) (<[l := u]> h)) -> wp (alloc u) h Q.
Proof.
  intros HQ. unfold wp, alloc. simpl. apply HQ.
  apply not_elem_of_dom, is_fresh.
Qed.

Lemma wp_panicking {A} (o : option A) h Q : Q o h -> wp (panicking o) h Q.
Proof. done. Qed.

Ltac heap_lookup :=
  repeat first [ rewrite lookup_insert_eq | rewrite lookup_insert_ne by congruence ];
  first [ reflexivity | eassumption ].

Ltac wp_step :=
  cbv beta iota;
  lazymatch goal with
  | |- wp (mbind _ _) _ _ => apply wp_bind
  | |- wp (mret _) _ _ => apply wp_ret
  | |- wp (ret _) _ _ => apply wp_ret
  | |- wp (load _) _ _ => eapply wp_load; [heap_lookup |]
  | |- wp (store _ _) _ _ => apply wp_store
  | |- wp (panicking _) _ _ => apply wp_panicking
  end.

Section Run.
Variable kubeGet : ObjectKey -> Unstructured -> error + Unstructured.
Variable dryRunApplyServer : Unstructured -> option error * Unstructured.
Variable yamlMarshal : Unstructured -> string.
Variable cmpDiff : string -> string -> string.

Local Abbreviation Diff := (Diff kubeGet dryRunApplyServer yamlMarshal cmpDiff).
Local Abbreviation diffOutcome := (diffOutcome kubeGet dryRunApplyServer yamlMarshal cmpDiff).

Lemma wp_DeepCopy l u h Q :
  h !! l = Some u ->
  (forall l', h !! l' = None -> Q (Some l') (<[l' := u]> h)) ->
  wp (DeepCopy l) h Q.
Proof.
  intros Hl HQ. unfold DeepCopy. wp_step. wp_step. by apply wp_alloc.
Qed.

Lemma wp_Get key obj u h Q :
  h !! obj = Some u ->
  Q (Some (match kubeGet key u with inl err => Some err | inr _ => None end))
    (<[obj := match kubeGet key u with inl _ => u | inr live => live end]> h) ->
  wp (Get kubeGet key obj) h Q.
Proof.
  intros Hl HQ. unfold Get. wp_step. wp_step.
  destruct (kubeGet key u).
  - wp_step. by rewrite insert_id in HQ.
  - wp_step. wp_step. by wp_step.
Qed.

Lemma wp_dryRunApply obj u h Q :
  h !! obj = Some u ->
  Q (Some (fst (dryRunApplyServer u))) (<[obj := snd (dryRunApplyServer u)]> h) ->
  wp (dryRunApply dryRunApplyServer obj) h Q.
Proof.
  intros Hl HQ. unfold dryRunApply. wp_step. wp_step.
  destruct (dryRunApplyServer u). wp_step. wp_step. by wp_step.
Qed.

Lemma wp_removeNestedField obj fields u h Q :
  h !! obj = Some u ->
  Q (Some tt) (<[obj := RemoveNestedField u fields]> h) ->
  wp (removeNestedField obj fields) h Q.
Proof.
  intros Hl HQ. unfold removeNestedField. wp_step. wp_step. by wp_step.
Qed.

Lemma wp_maskSecret obj mask u h Q :
  h !! obj = Some u ->
  Q (Some (match MaskSecret u mask with inl err => inl err | inr _ => inr obj end))
    (<[obj := match MaskSecret u mask with inl _ => u | inr u' => u' end]> h) ->
  wp (maskSecret obj mask) h Q.
Proof.
  intros Hl HQ. unfold maskSecret. wp_step. wp_step.
  destruct (MaskSecret u mask).
  - wp_step. by rewrite insert_id in HQ.
  - wp_step. wp_step. by wp_step.
Qed.

Ltac frame_solve :=
  let l := fresh "l" in
  let Hl := fresh "Hl" in
  unfold frame, ret; cbn [fst snd];
  intros l [? Hl];
  repeat match goal with
         | Hn : _ !! ?l' = None |- _ =>
             lazymatch goal with
             | _ : l <> l' |- _ => fail
             | _ => assert (l <> l') by congruence
             end
         end;
  repeat (rewrite lookup_insert_ne by congruence); done.

(** [Diff] returns [diffOutcome] of the content of the caller's object and
    leaves the cells it was given as they were. *)
Lemma Diff_wp (h : heap) (object : loc) (o : Unstructured) :
  h !! object = Some o ->
  wp (Diff object) h (fun r h' => r = diffOutcome o /\ frame h h').
Proof.
  intros Ho. unfold Diff.
  wp_step. eapply wp_DeepCopy; [done|]. intros el Hel.
  assert (object <> el) by congruence.
  wp_step. wp_step. wp_step. eapply wp_Get; [heap_lookup|].
  rewrite insert_insert_eq. fold (existingAfterGet kubeGet o).
  wp_step. eapply wp_DeepCopy; [heap_lookup|]. intros dl Hdl.
  assert (el <> dl) by (intros ->; simplify_map_eq).
  assert (object <> dl) by (intros ->; simplify_map_eq).
  rewrite lookup_insert_ne in Hdl by done.
  wp_step. eapply wp_dryRunApply; [heap_lookup|].
  rewrite insert_insert_eq.
  wp_step. wp_step.
  unfold diffOutcome.
  destruct (fst (dryRunApplyServer o)) as [err|].
  { wp_step. split; [done|frame_solve]. }
  destruct (String.eqb (GetResourceVersion _) "").
  { wp_step. split; [done|frame_solve]. }
  wp_step. wp_step. wp_step. wp_step.
  destruct (hasDrifted _ _) as [[|]|]; cycle 1.
  { wp_step. split; [done|frame_solve]. }
  { split; [done|frame_solve]. }
  wp_step. wp_step. wp_step. eapply wp_removeNestedField; [heap_lookup|].
  rewrite insert_insert_eq.
  wp_step. eapply wp_removeNestedField; [heap_lookup|].
  wp_step. wp_step. wp_step.
  unfold configured, rendered.
  destruct (String.eqb (GetKind _) "Secret").
  - wp_step. eapply wp_maskSecret; [heap_lookup|].
    destruct (MaskSecret (RemoveNestedField (snd (dryRunApplyServer o)) _) _) as [err|d2].
    { wp_step. wp_step. split; [done|frame_solve]. }
    wp_step. eapply wp_maskSecret; [heap_lookup|].
    destruct (MaskSecret (RemoveNestedField (existingAfterGet _ _) _) _) as [err|e2].
    { wp_step. wp_step. split; [done|frame_solve]. }
    wp_step. wp_step. wp_step. wp_step. wp_step. split; [done|frame_solve].
  - wp_step. wp_step. wp_step. wp_step. wp_step. split; [done|frame_solve].
Qed.

Lemma Diff_run (h : heap) (object : loc) (o : Unstructured) :
  h !! object = Some o ->
  fst (Diff object h) = diffOutcome o /\ frame h (snd (Diff object h)).
Proof. intros Ho. exact (Diff_wp h object o Ho). Qed.
End Run.

(** ** Classification by [Diff] *)

Section Classification.
Variable kubeGet : ObjectKey -> Unstructured -> error + Unstructured.
Variable dryRunApplyServer : Unstructured -> option error * Unstructured.
Variable yamlMarshal : Unstructured -> string.
Variable cmpDiff : string -> string -> string.

Local Abbreviation Diff := (Diff kubeGet dryRunApplyServer yamlMarshal cmpDiff).

(** C1: when the dry-run apply succeeds and its result carries no resource
    version, [Diff] returns the entry of the dry-run result with the action
    Created, hence neither Configured nor Unchanged, and [hasDrifted] is
    true for that dry-run result whatever the existing object is. *)
Theorem Diff_created_without_resource_version
    (h : heap) (object : loc) (o : Unstructured) :
  h !! object = Some o ->
  fst (dryRunApplyServer o) = None ->
  GetResourceVersion (snd (dryRunApplyServer o)) = "" ->
  fst (Diff object h) = Some (inr (changeSetEntry (snd (dryRunApplyServer o)) CreatedAction))
  /\ (forall cse, fst (Diff object h) = Some (inr cse) ->
        EntryAction cse = CreatedAction /\ EntryAction cse <> ConfiguredAction
        /\ EntryAction cse <> UnchangedAction)
  /\ forall existingObject,
       hasDrifted existingObject (snd (dryRunApplyServer o)) = Some true.
Proof.
  intros Ho Herr Hrv.
  destruct (Diff_run kubeGet dryRunApplyServer yamlMarshal cmpDiff h object o Ho) as [Hres _].
  assert (Hout : fst (Diff object h)
                 = Some (inr (changeSetEntry (snd (dryRunApplyServer o)) CreatedAction))).
  { rewrite Hres. unfold diffOutcome. rewrite Herr, Hrv. reflexivity. }
  split; [exact Hout|]. split.
  - intros cse Hcse. rewrite Hout in Hcse. injection Hcse as <-. simpl. by repeat split.
  - intros e. unfold hasDrifted. by rewrite Hrv.
Qed.

(** C9: [Diff] leaves every cell of the caller as it was, the cell of its
    argument among them: it writes only the cells it allocates. *)
Theorem Diff_does_not_mutate_the_object (h : heap) (object : loc) :
  frame h (snd (Diff object h))
  /\ snd (Diff object h) !! object = h !! object.
Proof.
  destruct (h !! object) as [o|] eqn:Ho.
  - destruct (Diff_run kubeGet dryRunApplyServer yamlMarshal cmpDiff h object o Ho) as [_ Hfr].
    split; [exact Hfr|]. rewrite <- Ho. apply Hfr. rewrite Ho. by eexists.
  - assert (Hh : snd (Diff object h) = h).
    { unfold resmgr.Diff, DeepCopy, load. cbv [mbind M_bind bind]. by rewrite Ho. }
    rewrite Hh. split; [by intros l _|done].
Qed.

End Classification.

(** C10: a failing [Get], whatever its error, is not told apart from a
    [Get] that answers with the copy of the desired object it was handed:
    the error is dropped and the existing object stays that copy. *)
Theorem Diff_ignores_Get_failure
    (kubeGet : ObjectKey -> Unstructured -> error + Unstructured)
    (dryRunApplyServer : Unstructured -> option error * Unstructured)
    (yamlMarshal : Unstructured -> string) (cmpDiff : string -> string -> string)
    (h : heap) (object : loc) (o : Unstructured) (err : error) :
  h !! object = Some o ->
  kubeGet (ObjectKeyFromObject o) o = inl err ->
  existingAfterGet kubeGet o = o
  /\ fst (Diff kubeGet dryRunApplyServer yamlMarshal cmpDiff object h)
     = fst (Diff (fun _ u => inr u) dryRunApplyServer yamlMarshal cmpDiff object h)
  /\ fst (Diff kubeGet dryRunApplyServer yamlMarshal cmpDiff object h)
     = match dryRunApplyServer o with
       | (Some err', d) => Some (inl (validationError d err'))
       | (None, d) =>
           if String.eqb (GetResourceVersion d) "" then
             Some (inr (changeSetEntry d CreatedAction))
           else
             match hasDrifted o d with
             | None => None
             | Some true => Some (configured yamlMarshal cmpDiff o o d)
             | Some false => Some (inr (changeSetEntry d UnchangedAction))
             end
       end.
Proof.
  intros Ho Hget.
  assert (He : existingAfterGet kubeGet o = o).
  { unfold existingAfterGet. by rewrite Hget. }
  destruct (Diff_run kubeGet dryRunApplyServer yamlMarshal cmpDiff h object o Ho) as [-> _].
  destruct (Diff_run (fun _ u => inr u) dryRunApplyServer yamlMarshal cmpDiff h object o Ho)
    as [-> _].
  unfold diffOutcome. rewrite He. unfold existingAfterGet.
  repeat split. by destruct (dryRunApplyServer o) as [[?|] d].
Qed.

(** ** The order of the checks of [hasDrifted] *)

#[local] Arguments DeepDerivative : simpl never.
#[local] Arguments DeepDerivativeStringMap : simpl never.

Lemma firstMismatch_short_circuit (pre post : list outcome) :
  Forall (fun c => c = Some true) pre ->
  firstMismatch (pre ++ Some false :: post) = Some true.
Proof. induction 1 as [|c pre -> _ IH]; simpl; auto. Qed.

Lemma firstMismatch_false (checks : list outcome) :
  firstMismatch checks = Some false <-> Forall (fun c => c = Some true) checks.
Proof.
  induction checks as [|[[|]|] checks IH]; simpl.
  - split; [constructor|done].
  - rewrite IH. split; [by constructor|by inversion 1].
  - split; [done|]. inversion 1; congruence.
  - split; [done|]. inversion 1; congruence.
Qed.

Lemma hasDrifted_firstMismatch (existingObject dryRunObject : Unstructured) :
  GetResourceVersion dryRunObject <> "" ->
  hasDrifted existingObject dryRunObject
  = firstMismatch (driftChecks existingObject dryRunObject).
Proof.
  intros Hrv.
  unfold hasDrifted, driftChecks, scopeOf, compareScope, scopeValue, field.
  apply String.eqb_neq in Hrv. rewrite Hrv. simpl.
  destruct (DeepDerivativeStringMap (GetLabels _) _) as [[|]|]; try reflexivity.
  destruct (DeepDerivativeStringMap (GetAnnotations _) _) as [[|]|]; try reflexivity.
  destruct (index existingObject "spec") as [espec|]; simpl.
  { by destruct (DeepDerivative _ espec) as [[|]|]. }
  destruct (index existingObject "webhooks") as [ewebhooks|]; simpl.
  { by destruct (DeepDerivative _ ewebhooks) as [[|]|]. }
  by destruct (DeepDerivative _ _) as [[|]|].
Qed.

Lemma hasDrifted_false (existingObject dryRunObject : Unstructured) :
  GetResourceVersion dryRunObject <> "" ->
  hasDrifted existingObject dryRunObject = Some false <->
  Forall (fun c => c = Some true) (driftChecks existingObject dryRunObject).
Proof.
  intros Hrv. rewrite (hasDrifted_firstMismatch _ _ Hrv). apply firstMismatch_false.
Qed.

(** C2: with a resource version on the dry-run result, [hasDrifted] runs
    the comparisons in the order labels, annotations, one body scope (spec
    if the existing object has it, else webhooks if it has it, else the
    whole object) and answers at the first one that does not match: a
    mismatch gives true whatever the comparisons after it would do, and
    false is returned exactly when the three comparisons match. *)
Theorem hasDrifted_checks_in_order (existingObject dryRunObject : Unstructured) :
  GetResourceVersion dryRunObject <> "" ->
  hasDrifted existingObject dryRunObject
  = firstMismatch (driftChecks existingObject dryRunObject)
  /\ length (driftChecks existingObject dryRunObject) = 3
  /\ (forall pre post : list outcome,
        driftChecks existingObject dryRunObject = (pre ++ Some false :: post)%list ->
        Forall (fun c => c = Some true) pre ->
        hasDrifted existingObject dryRunObject = Some true)
  /\ (hasDrifted existingObject dryRunObject = Some false <->
      Forall (fun c => c = Some true) (driftChecks existingObject dryRunObject)).
Proof.
  intros Hrv.
  pose proof (hasDrifted_firstMismatch existingObject dryRunObject Hrv) as Heq.
  split; [exact Heq|]. split; [reflexivity|]. split.
  - intros pre post Hsplit Hpre. rewrite Heq, Hsplit.
    by apply firstMismatch_short_circuit.
  - by apply hasDrifted_false.
Qed.

(** ** The deep-derivative comparison *)

Lemma value_ind' (P : value -> Prop) :
  P VNil -> (forall b, P (VBool b)) -> (forall z, P (VInt z)) ->
  (forall f, P (VFloat f)) -> (forall s, P (VString s)) ->
  (forall l, Forall P l -> P (VList l)) ->
  (forall m, Forall (fun kv => P (snd kv)) m -> P (VMap m)) ->
  forall v, P v.
Proof.
  intros Hnil Hbool Hint Hfloat Hstring Hlist Hmap.
  fix IH 1. intros [| b | z | f | s | l | m].
  - exact Hnil.
  - apply Hbool.
  - apply Hint.
  - apply Hfloat.
  - apply Hstring.
  - apply Hlist. induction l as [|x l IHl]; constructor; [apply IH|exact IHl].
  - apply Hmap. induction m as [|[k x] m IHm]; constructor; [apply IH|exact IHm].
Qed.

Lemma deepValueDerive_list (l1 l2 : list value) :
  deepValueDerive (VList l1) (VList l2)
  = if Nat.eqb (length l1) 0 then Some true
    else if Nat.ltb (length l2) (length l1) then Some false
    else deriveSlice l1 l2.
Proof. reflexivity. Qed.

Lemma deepValueDerive_map (m1 m2 : list (string * value)) :
  deepValueDerive (VMap m1) (VMap m2)
  = if Nat.eqb (length m1) 0 then Some true
    else if Nat.ltb (length m2) (length m1) then Some false
    else deriveEntries m2 m1.
Proof. reflexivity. Qed.

Lemma deriveSlice_cons x xs y ys :
  deriveSlice (x :: xs) (y :: ys)
  = match deepValueDerive x y with
    | Some true => deriveSlice xs ys
    | r => r
    end.
Proof. reflexivity. Qed.

Lemma deriveEntries_cons m2 k x kvs :
  deriveEntries m2 ((k, x) :: kvs)
  = match index m2 k with
    | None => Some false
    | Some y =>
        match deepValueDerive x y with
        | Some true => deriveEntries m2 kvs
        | r => r
        end
    end.
Proof. reflexivity. Qed.

Lemma deriveSlice_true (xs ys : list value) :
  deriveSlice xs ys = Some true <->
  exists ys1 ys2, ys = (ys1 ++ ys2)%list
    /\ Forall2 (fun x y => deepValueDerive x y = Some true) xs ys1.
Proof.
  revert ys. induction xs as [|x xs IH]; intros ys.
  - split; [|done]. intros _. exists [], ys. split; [done|constructor].
  - destruct ys as [|y ys].
    + split; [done|]. intros (ys1 & ys2 & Heq & HF).
      inversion HF; subst. discriminate.
    + rewrite deriveSlice_cons. split.
      * destruct (deepValueDerive x y) as [[|]|] eqn:Hxy; try done.
        intros (ys1 & ys2 & -> & HF)%IH.
        exists (y :: ys1), ys2. split; [done|by constructor].
      * intros (ys1 & ys2 & Heq & HF). inversion HF as [|? y' ? ys1' Hxy HF']; subst.
        injection Heq as <- ->. rewrite Hxy. apply IH. eauto.
Qed.

Lemma deriveEntries_true (m2 kvs : list (string * value)) :
  deriveEntries m2 kvs = Some true <->
  forall k x, (k, x) ∈ kvs ->
    exists y, index m2 k = Some y /\ deepValueDerive x y = Some true.
Proof.
  induction kvs as [|[k x] kvs IH].
  - split; [|done]. intros _ k x Hin. by apply elem_of_nil in Hin.
  - rewrite deriveEntries_cons. split.
    + destruct (index m2 k) as [y|] eqn:Hk; [|done].
      destruct (deepValueDerive x y) as [[|]|] eqn:Hxy; try done.
      intros Hrest k' x' [Heq|Hin]%elem_of_cons.
      * injection Heq as -> ->. eauto.
      * by apply IH.
    + intros Hall.
      destruct (Hall k x) as (y & -> & ->); [by left|].
      apply IH. intros k' x' Hin. apply Hall. by right.
Qed.

Lemma index_elem_of {A} (m : list (string * A)) k x :
  index m k = Some x -> (k, x) ∈ m.
Proof.
  induction m as [|[k' v] m IH]; simpl; [done|].
  destruct (String.eqb k k') eqn:Hk.
  - apply String.eqb_eq in Hk as ->. intros [= ->]. by left.
  - intros H. right. by apply IH.
Qed.

Lemma index_None {A} (m : list (string * A)) k :
  index m k = None <-> k ∉ keys m.
Proof.
  induction m as [|[k' v] m IH]; simpl.
  - split; [intros _; apply not_elem_of_nil|done].
  - destruct (String.eqb k k') eqn:Hk.
    + apply String.eqb_eq in Hk as ->. split; [done|]. intros []. by left.
    + apply String.eqb_neq in Hk. rewrite IH. unfold keys. simpl.
      rewrite not_elem_of_cons. tauto.
Qed.

Lemma elem_of_keys {A} (m : list (string * A)) k :
  k ∈ keys m <-> exists x, (k, x) ∈ m.
Proof.
  unfold keys. rewrite list_elem_of_fmap. split.
  - intros ([k' x] & -> & Hin). eauto.
  - intros (x & Hin). by exists (k, x).
Qed.

Lemma elem_of_index {A} (m : list (string * A)) k x :
  NoDup (keys m) -> (k, x) ∈ m -> index m k = Some x.
Proof.
  induction m as [|[k' v] m IH]; simpl.
  - intros _ Hin. by apply elem_of_nil in Hin.
  - intros [Hk' Hnd]%NoDup_cons [Heq|Hin]%elem_of_cons.
    + injection Heq as -> ->. by rewrite String.eqb_refl.
    + destruct (String.eqb k k') eqn:Hk.
      * apply String.eqb_eq in Hk as ->. destruct Hk'.
        apply elem_of_keys. eauto.
      * by apply IH.
Qed.

(** Key inclusion bounds the number of keys. *)
Lemma keys_length_le {A B} (m : list (string * A)) (m' : list (string * B)) :
  NoDup (keys m) -> (forall k, k ∈ keys m -> k ∈ keys m') -> length m <= length m'.
Proof.
  intros Hnd Hsub.
  rewrite <- (length_fmap fst m), <- (length_fmap fst m').
  apply submseteq_length, NoDup_submseteq; [exact Hnd|exact Hsub].
Qed.

Lemma deepValueDerive_map_true (m1 : list (string * value)) (v2 : value) :
  deepValueDerive (VMap m1) v2 = Some true <->
  exists m2, v2 = VMap m2 /\ length m1 <= length m2
    /\ forall k x, (k, x) ∈ m1 ->
         exists y, index m2 k = Some y /\ deepValueDerive x y = Some true.
Proof.
  destruct v2 as [| | | | | |m2];
    try (split; [discriminate|intros (m2' & Heq & _); discriminate]).
  rewrite deepValueDerive_map.
  destruct m1 as [|kv m1].
  { split; [|done]. intros _. exists m2. split; [done|]. split; [simpl; lia|].
    intros k x Hin. by apply elem_of_nil in Hin. }
  change (Nat.eqb (length (kv :: m1)) 0) with false. cbv iota.
  destruct (Nat.ltb (length m2) (length (kv :: m1))) eqn:Hlen.
  - split; [done|]. intros (m2' & [= <-] & Hle & _).
    apply Nat.ltb_lt in Hlen. lia.
  - apply Nat.ltb_ge in Hlen. rewrite deriveEntries_true. split.
    + intros H. eauto.
    + intros (m2' & [= <-] & _ & H). done.
Qed.

Lemma deepValueDerive_list_true (l1 : list value) (v2 : value) :
  deepValueDerive (VList l1) v2 = Some true <->
  exists l2 l2', v2 = VList (l2 ++ l2')
    /\ Forall2 (fun x y => deepValueDerive x y = Some true) l1 l2.
Proof.
  destruct v2 as [| | | | |l2|];
    try (split; [discriminate|intros (? & ? & Heq & _); discriminate]).
  rewrite deepValueDerive_list.
  destruct l1 as [|x l1].
  { split; [|done]. intros _. exists [], l2. split; [done|constructor]. }
  change (Nat.eqb (length (x :: l1)) 0) with false. cbv iota.
  destruct (Nat.ltb (length l2) (length (x :: l1))) eqn:Hlen.
  - split; [done|]. intros (l & l' & [= ->] & HF).
    apply Nat.ltb_lt in Hlen. apply Forall2_length in HF.
    rewrite length_app in Hlen. lia.
  - rewrite deriveSlice_true. split.
    + intros (l & l' & -> & HF). eauto.
    + intros (l & l' & [= ->] & HF). eauto.
Qed.

(** The walk returns on every pair of values. *)
Lemma deepValueDerive_total (v1 v2 : value) : is_Some (deepValueDerive v1 v2).
Proof.
  revert v2. induction v1 as [| b | z | f | s | l1 IH | m1 IH] using value_ind';
    intros v2.
  - by eexists.
  - destruct v2; by eexists.
  - destruct v2; by eexists.
  - destruct v2; by eexists.
  - destruct v2; simpl; try (by eexists). destruct (Nat.eqb _ _); by eexists.
  - destruct v2 as [| | | | |l2|]; try (by eexists).
    rewrite deepValueDerive_list.
    destruct (Nat.eqb _ _); [by eexists|]. destruct (Nat.ltb _ _); [by eexists|].
    revert l2. induction IH as [|x l1 Hx _ IHl]; intros l2; [by eexists|].
    destruct l2 as [|y l2]; [by eexists|]. rewrite deriveSlice_cons.
    destruct (Hx y) as [[|] ->]; [apply IHl|by eexists].
  - destruct v2 as [| | | | | |m2]; try (by eexists).
    rewrite deepValueDerive_map.
    destruct (Nat.eqb _ _); [by eexists|]. destruct (Nat.ltb _ _); [by eexists|].
    induction IH as [|[k x] m1 Hx _ IHm]; [by eexists|].
    rewrite deriveEntries_cons. destruct (index m2 k) as [y|]; [|by eexists].
    simpl in Hx. destruct (Hx y) as [[|] ->]; [apply IHm|by eexists].
Qed.

(** *** The comparison of an object with itself *)

Lemma float_eq_refl (f : spec_float) : isNaN f = false -> float_eq f f = true.
Proof.
  unfold float_eq, SFeqb. destruct f as [s|s| |s m e]; simpl; try done.
  - by destruct s.
  - intros _. rewrite Z.compare_refl, Pos.compare_cont_refl. by destruct s.
Qed.

Lemma wellFormed_map (m : list (string * value)) :
  wellFormed (VMap m) = true <->
  NoDup (keys m) /\ forall k x, (k, x) ∈ m -> wellFormed x = true.
Proof.
  simpl. rewrite andb_true_iff, bool_decide_eq_true, forallb_forall.
  split; intros [Hnd Hall]; (split; [exact Hnd|]).
  - intros k x Hin. apply (Hall (k, x)). by apply list_elem_of_In.
  - intros [k x] Hin. apply (Hall k x). by apply list_elem_of_In.
Qed.

Lemma wellFormed_list (l : list value) :
  wellFormed (VList l) = true <-> Forall (fun x => wellFormed x = true) l.
Proof.
  simpl. rewrite forallb_forall, Forall_forall.
  split; intros H x Hin; apply H; by apply list_elem_of_In.
Qed.

Lemma deepValueDerive_refl (v : value) :
  wellFormed v = true -> deepValueDerive v v = Some true.
Proof.
  induction v as [| b | z | f | s | l IH | m IH] using value_ind'; intros Hwf.
  - reflexivity.
  - simpl. by rewrite Bool.eqb_reflx.
  - simpl. by rewrite Z.eqb_refl.
  - simpl in *. rewrite float_eq_refl; [done|]. by destruct (isNaN f).
  - simpl. rewrite String.eqb_refl. by destruct (Nat.eqb _ _).
  - apply deepValueDerive_list_true. exists l, []. split; [by rewrite app_nil_r|].
    apply wellFormed_list in Hwf. induction IH as [|x l Hx _ IHl]; [constructor|].
    apply Forall_cons in Hwf as [Hwx Hwl]. constructor; auto.
  - apply deepValueDerive_map_true. exists m. split; [done|]. split; [done|].
    apply wellFormed_map in Hwf as [Hnd Hall].
    intros k x Hin. exists x. split; [by apply elem_of_index|].
    rewrite Forall_forall in IH. apply (IH (k, x) Hin). by apply (Hall k x).
Qed.

Lemma wellFormed_index (m : list (string * value)) k x :
  wellFormed (VMap m) = true -> index m k = Some x -> wellFormed x = true.
Proof.
  intros [_ Hall]%wellFormed_map Hk. apply (Hall k x). by apply index_elem_of.
Qed.

Lemma wellFormed_nested (v : value) (fields : list string) (x : value) :
  wellFormed v = true -> NestedFieldNoCopy_from v fields = Found x -> wellFormed x = true.
Proof.
  revert v. induction fields as [|f fields IH]; intros v Hwf; simpl.
  - by intros [= <-].
  - destruct v as [| | | | | |m]; try done.
    destruct (index m f) as [y|] eqn:Hy; [|done].
    apply IH. by eapply wellFormed_index.
Qed.

Lemma toStringMap_inject (m : list (string * value)) (sm : list (string * string)) :
  toStringMap m = Some sm -> inject sm = m.
Proof.
  revert sm. induction m as [|[k v] m IH]; intros sm; simpl.
  - by intros [= <-].
  - destruct v as [| | | |s| |]; try done.
    destruct (toStringMap m) as [sm'|]; [|done].
    intros [= <-]. simpl. by rewrite (IH sm').
Qed.

Lemma DeepDerivativeStringMap_inject (m1 m2 : list (string * string)) :
  DeepDerivativeStringMap m1 m2 = deepValueDerive (VMap (inject m1)) (VMap (inject m2)).
Proof.
  rewrite deepValueDerive_map. unfold DeepDerivativeStringMap, inject.
  rewrite !length_map.
  destruct (Nat.eqb (length m1) 0); [done|].
  destruct (Nat.ltb (length m2) (length m1)); [done|].
  assert (Hidx : forall k, index (map (fun ks => (fst ks, VString (snd ks))) m2) k
                           = VString <$> index m2 k).
  { intros k. induction m2 as [|[k' s] m2 IH]; simpl; [done|].
    by destruct (String.eqb k k'). }
  induction m1 as [|[k s1] m1 IH]; [done|].
  simpl map. rewrite deriveEntries_cons, Hidx.
  destruct (index m2 k) as [s2|]; simpl; [|done].
  destruct (Nat.eqb (String.length s1) 0); [exact IH|].
  destruct (String.eqb s1 s2); [exact IH|done].
Qed.

(** The string map read by [GetLabels] and [GetAnnotations], seen as a
    value, is well formed when the object is. *)
Lemma wellFormed_nestedStringMapOrNil (u : Unstructured) (fields : list string) :
  wellFormed (VMap u) = true ->
  wellFormed (VMap (inject (nestedStringMapOrNil u fields))) = true.
Proof.
  intros Hwf. unfold nestedStringMapOrNil, NestedFieldNoCopy.
  destruct (NestedFieldNoCopy_from (VMap u) fields) as [x| |] eqn:Hx; try done.
  destruct x as [| | | | | |m]; try done.
  destruct (toStringMap m) as [sm|] eqn:Hsm; [|done].
  rewrite (toStringMap_inject _ _ Hsm). by eapply wellFormed_nested.
Qed.

(** At the entry point a result of true is one of the walk. *)
Lemma DeepDerivative_true (a1 a2 : value) :
  DeepDerivative a1 a2 = Some true <-> deepValueDerive a1 a2 = Some true.
Proof. unfold DeepDerivative. destruct a1, a2; try tauto; split; discriminate. Qed.

Lemma DeepDerivative_refl (v : value) :
  wellFormed v = true -> DeepDerivative v v = Some true.
Proof. intros Hwf. by apply DeepDerivative_true, deepValueDerive_refl. Qed.

Lemma hasDrifted_refl (u : Unstructured) :
  wellFormed (VMap u) = true ->
  GetResourceVersion u <> "" ->
  hasDrifted u u = Some false.
Proof.
  intros Hwf Hrv.
  apply (hasDrifted_false u u Hrv).
  unfold driftChecks, GetLabels, GetAnnotations.
  rewrite !DeepDerivativeStringMap_inject.
  repeat constructor.
  - by apply deepValueDerive_refl, wellFormed_nestedStringMapOrNil.
  - by apply deepValueDerive_refl, wellFormed_nestedStringMapOrNil.
  - unfold compareScope, scopeOf, scopeValue, field.
    destruct (index u "spec") as [espec|] eqn:Hs.
    { apply DeepDerivative_refl. by eapply wellFormed_index. }
    destruct (index u "webhooks") as [ew|] eqn:Hw.
    { apply DeepDerivative_refl. by eapply wellFormed_index. }
    by apply DeepDerivative_refl.
Qed.

(** ** A second call with the same object *)

(** C4: when the cluster holds the object produced by a first call and
    nothing changed since, the dry-run result of the second call being that
    live object, [Diff] returns the entry with the action Unchanged and an
    empty diff text. *)
Theorem Diff_unchanged_on_second_call
    (kubeGet : ObjectKey -> Unstructured -> error + Unstructured)
    (dryRunApplyServer : Unstructured -> option error * Unstructured)
    (yamlMarshal : Unstructured -> string) (cmpDiff : string -> string -> string)
    (h : heap) (object : loc) (o live : Unstructured) :
  h !! object = Some o ->
  kubeGet (ObjectKeyFromObject o) o = inr live ->
  dryRunApplyServer o = (None, live) ->
  GetResourceVersion live <> "" ->
  wellFormed (VMap live) = true ->
  exists cse,
    fst (Diff kubeGet dryRunApplyServer yamlMarshal cmpDiff object h) = Some (inr cse)
    /\ cse = changeSetEntry live UnchangedAction
    /\ EntryAction cse = UnchangedAction
    /\ Diff_text cse = "".
Proof.
  intros Ho Hget Hdry Hrv Hwf.
  destruct (Diff_run kubeGet dryRunApplyServer yamlMarshal cmpDiff h object o Ho) as [-> _].
  exists (changeSetEntry live UnchangedAction). split; [|done].
  unfold diffOutcome, existingAfterGet. rewrite Hget, Hdry. simpl fst. simpl snd. cbv iota.
  apply String.eqb_neq in Hrv as Hrv'. rewrite Hrv'.
  by rewrite (hasDrifted_refl live Hwf Hrv).
Qed.

(** ** Secrets *)

Lemma index_assign_eq {A} (m : list (string * A)) k v :
  index (assign k v m) k = Some v.
Proof.
  induction m as [|[k' v'] m IH]; simpl.
  - by rewrite String.eqb_refl.
  - destruct (String.eqb k k') eqn:Hk; simpl.
    + by rewrite String.eqb_refl.
    + by rewrite Hk.
Qed.

Lemma index_assign_ne {A} (m : list (string * A)) k k' v :
  k <> k' -> index (assign k v m) k' = index m k'.
Proof.
  intros Hne. induction m as [|[k0 v0] m IH]; simpl.
  - apply not_eq_sym in Hne. apply String.eqb_neq in Hne. by rewrite Hne.
  - destruct (String.eqb k k0) eqn:Hk; simpl.
    + apply String.eqb_eq in Hk as <-.
      apply not_eq_sym in Hne. apply String.eqb_neq in Hne. by rewrite Hne.
    + destruct (String.eqb k' k0); [done|exact IH].
Qed.

Lemma MaskSecret_masked (u u' : Unstructured) (mask : string) :
  MaskSecret u mask = inr u' -> allDataMasked mask u'.
Proof.
  unfold MaskSecret, allDataMasked.
  destruct (index u "data") as [v|] eqn:Hdata.
  - destruct v as [| | | | | |data]; try done.
    intros [= <-] data' k x. rewrite index_assign_eq. intros [= <-].
    rewrite list_elem_of_fmap. by intros ([k0 x0] & [= -> ->] & _).
  - intros [= <-] data' k x Hd. congruence.
Qed.

(** [MaskSecret] writes to [data] only. *)
Lemma MaskSecret_keeps_fields (u u' : Unstructured) (mask k : string) :
  k <> "data" -> MaskSecret u mask = inr u' -> index u' k = index u k.
Proof.
  intros Hk. unfold MaskSecret.
  destruct (index u "data") as [[| | | | | |data]|]; try done.
  - intros [= <-]. by rewrite index_assign_ne.
  - by intros [= <-].
Qed.

Lemma GetKind_managedFields (u : Unstructured) :
  GetKind (RemoveNestedField u ["metadata"; "managedFields"]) = GetKind u.
Proof.
  unfold GetKind, getNestedString, NestedFieldNoCopy. simpl.
  destruct (index u "metadata") as [[| | | | | |x]|]; try done.
  by rewrite index_assign_ne.
Qed.

Section Secrets.
Variable kubeGet : ObjectKey -> Unstructured -> error + Unstructured.
Variable dryRunApplyServer : Unstructured -> option error * Unstructured.
Variable yamlMarshal : Unstructured -> string.
Variable cmpDiff : string -> string -> string.

Local Abbreviation Diff := (Diff kubeGet dryRunApplyServer yamlMarshal cmpDiff).

(** The drifted branch of [Diff] on a Secret: the two objects rendered are
    the masked copies. *)
Lemma Diff_configured_secret (h : heap) (object : loc) (o : Unstructured)
    (cse : ChangeSetEntry) :
  h !! object = Some o ->
  GetKind (snd (dryRunApplyServer o)) = "Secret" ->
  fst (Diff object h) = Some (inr cse) ->
  EntryAction cse = ConfiguredAction ->
  exists e2 d2,
    MaskSecret (RemoveNestedField (existingAfterGet kubeGet o) ["metadata"; "managedFields"])
      existingMask = inr e2
    /\ MaskSecret (RemoveNestedField (snd (dryRunApplyServer o)) ["metadata"; "managedFields"])
         dryRunMask = inr d2
    /\ Diff_text cse = cmpDiff (yamlMarshal e2) (yamlMarshal d2).
Proof.
  intros Ho Hkind.
  destruct (Diff_run kubeGet dryRunApplyServer yamlMarshal cmpDiff h object o Ho) as [-> _].
  unfold diffOutcome.
  destruct (fst (dryRunApplyServer o)) as [err|]; [done|].
  destruct (String.eqb (GetResourceVersion _) "").
  { intros [= <-]. done. }
  destruct (hasDrifted _ _) as [[|]|]; [|by intros [= <-]|done].
  unfold configured, rendered. rewrite GetKind_managedFields, Hkind.
  change (String.eqb "Secret" "Secret") with true. cbv iota.
  destruct (MaskSecret (RemoveNestedField (snd (dryRunApplyServer o)) _) _) as [?|d2]; [done|].
  destruct (MaskSecret (RemoveNestedField (existingAfterGet _ _) _) _) as [?|e2]; [done|].
  intros [= <-] _. by exists e2, d2.
Qed.

(** C6: on a Secret that has drifted, the dry-run side is masked with one
    token and the existing side with another one, so a key held by both
    sides never has the same masked value, whatever its values were. *)
Theorem Diff_masks_the_two_sides_differently (h : heap) (object : loc) (o : Unstructured)
    (cse : ChangeSetEntry) :
  h !! object = Some o ->
  GetKind (snd (dryRunApplyServer o)) = "Secret" ->
  fst (Diff object h) = Some (inr cse) ->
  EntryAction cse = ConfiguredAction ->
  dryRunMask <> existingMask
  /\ exists e2 d2,
       MaskSecret (RemoveNestedField (existingAfterGet kubeGet o)
                     ["metadata"; "managedFields"]) existingMask = inr e2
       /\ MaskSecret (RemoveNestedField (snd (dryRunApplyServer o))
                        ["metadata"; "managedFields"]) dryRunMask = inr d2
       /\ Diff_text cse = cmpDiff (yamlMarshal e2) (yamlMarshal d2)
       /\ forall edata ddata k ve vd,
            index e2 "data" = Some (VMap edata) -> index d2 "data" = Some (VMap ddata) ->
            (k, ve) ∈ edata -> (k, vd) ∈ ddata ->
            ve = VString existingMask /\ vd = VString dryRunMask /\ ve <> vd.
Proof.
  intros Ho Hkind Hres Hact. split; [done|].
  destruct (Diff_configured_secret h object o cse Ho Hkind Hres Hact)
    as (e2 & d2 & He & Hd & Htext).
  exists e2, d2. repeat (split; [done|]).
  intros edata ddata k ve vd Hedata Hddata Hve Hvd.
  rewrite (MaskSecret_masked _ _ _ He edata k ve Hedata Hve).
  rewrite (MaskSecret_masked _ _ _ Hd ddata k vd Hddata Hvd).
  done.
Qed.


End Secrets.

(** ** Independence from the order of the keys *)

Lemma reorder_sym (v v' : value) : reorder v v' -> reorder v' v.
Proof.
  revert v'. induction v as [| b | z | f | s | l IH | m IH] using value_ind';
    intros v' H; inversion H as [| | | | |? l' HF|? m' Hnd Hnd' Hto Hfrom]; subst;
    try constructor; try done.
  - clear H. induction HF as [|x x' l l' Hx HF IHF]; [constructor|].
    apply Forall_cons in IH as [IHx IHl]. constructor; auto.
  - intros k x' Hin. destruct (Hfrom k x' Hin) as (x & Hx & Hr).
    exists x. split; [done|]. rewrite Forall_forall in IH. by apply (IH (k, x) Hx).
  - intros k x Hin. destruct (Hto k x Hin) as (x' & Hx' & Hr).
    exists x'. split; [done|]. rewrite Forall_forall in IH. by apply (IH (k, x) Hin).
Qed.

Lemma reorder_length (m m' : list (string * value)) :
  reorder (VMap m) (VMap m') -> length m = length m'.
Proof.
  intros H. inversion H as [| | | | | |? ? Hnd Hnd' Hto Hfrom]; subst.
  apply Nat.le_antisymm; apply keys_length_le; try done.
  - intros k (x & Hin)%elem_of_keys. destruct (Hto k x Hin) as (x' & Hx' & _).
    apply elem_of_keys. eauto.
  - intros k (x' & Hin)%elem_of_keys. destruct (Hfrom k x' Hin) as (x & Hx & _).
    apply elem_of_keys. eauto.
Qed.

Lemma reorder_index (m m' : list (string * value)) (k : string) :
  reorder (VMap m) (VMap m') ->
  match index m k, index m' k with
  | Some x, Some x' => reorder x x'
  | None, None => True
  | _, _ => False
  end.
Proof.
  intros H. inversion H as [| | | | | |? ? Hnd Hnd' Hto Hfrom]; subst.
  destruct (index m k) as [x|] eqn:Hk.
  - apply index_elem_of in Hk. destruct (Hto k x Hk) as (x' & Hx' & Hr).
    by rewrite (elem_of_index m' k x' Hnd' Hx').
  - destruct (index m' k) as [x'|] eqn:Hk'; [|done].
    apply index_elem_of in Hk'. destruct (Hfrom k x' Hk') as (x & Hx & _).
    apply index_None in Hk. apply Hk, elem_of_keys. eauto.
Qed.

(** A comparison that matches still matches when the keys of the maps of
    both operands are enumerated in another order. *)
Lemma deepValueDerive_reorder (v1 : value) :
  forall v1' v2 v2',
    reorder v1 v1' -> reorder v2 v2' ->
    deepValueDerive v1 v2 = Some true -> deepValueDerive v1' v2' = Some true.
Proof.
  induction v1 as [| b | z | f | s | l1 IH | m1 IH] using value_ind';
    intros v1' v2 v2' H1 H2 HD.
  - inversion H1; subst. reflexivity.
  - inversion H1; subst. destruct v2; try discriminate. by inversion H2; subst.
  - inversion H1; subst. destruct v2; try discriminate. by inversion H2; subst.
  - inversion H1; subst. destruct v2; try discriminate. by inversion H2; subst.
  - inversion H1; subst. destruct v2; try discriminate. by inversion H2; subst.
  - inversion H1 as [| | | | |? l1' HF1|]; subst.
    apply deepValueDerive_list_true in HD as (l2 & l2r & -> & HD).
    inversion H2 as [| | | | |? l' HF2|]; subst.
    apply Forall2_app_inv_l in HF2 as (k2 & k2r & HF2 & _ & ->).
    apply deepValueDerive_list_true. exists k2, k2r. split; [done|].
    clear H1 H2. revert l1' k2 HF1 HF2.
    induction HD as [|x y l1 l2 Hxy HD IHD]; intros l1' k2 HF1 HF2.
    + inversion HF1; subst. inversion HF2; subst. constructor.
    + inversion HF1 as [|? x' ? l1'' Hx HF1']; subst.
      inversion HF2 as [|? y' ? k2' Hy HF2']; subst.
      apply Forall_cons in IH as [IHx IHl]. constructor; eauto.
  - inversion H1 as [| | | | | |? m1' Hnd1 Hnd1' Hto1 Hfrom1]; subst.
    apply deepValueDerive_map_true in HD as (m2 & -> & Hlen & HD).
    inversion H2 as [| | | | | |? m2' Hnd2 Hnd2' Hto2 Hfrom2]; subst.
    apply deepValueDerive_map_true. exists m2'. split; [done|]. split.
    { rewrite <- (reorder_length _ _ H1), <- (reorder_length _ _ H2). exact Hlen. }
    intros k x' Hin'. destruct (Hfrom1 k x' Hin') as (x & Hin & Hr).
    destruct (HD k x Hin) as (y & Hy & Hxy).
    pose proof (reorder_index m2 m2' k H2) as Hidx. rewrite Hy in Hidx.
    destruct (index m2' k) as [y'|]; [|done].
    exists y'. split; [done|].
    rewrite Forall_forall in IH. exact (IH (k, x) Hin x' y y' Hr Hidx Hxy).
Qed.

Lemma reorder_nested (v v' : value) (fields : list string) :
  reorder v v' ->
  match NestedFieldNoCopy_from v fields, NestedFieldNoCopy_from v' fields with
  | Found x, Found x' => reorder x x'
  | Missing, Missing => True
  | AccessorError, AccessorError => True
  | _, _ => False
  end.
Proof.
  revert v v'. induction fields as [|f fields IH]; intros v v' H; simpl; [done|].
  inversion H as [| | | | | |m m' Hnd Hnd' Hto Hfrom]; subst; try done.
  pose proof (reorder_index m m' f H) as Hidx.
  destruct (index m f) as [x|], (index m' f) as [x'|]; try done.
  by apply IH.
Qed.

Lemma toStringMap_Some (m : list (string * value)) :
  is_Some (toStringMap m) <-> forall k x, (k, x) ∈ m -> exists s, x = VString s.
Proof.
  induction m as [|[k x] m IH]; simpl.
  - split; [|by eexists]. intros _ k x Hin. by apply elem_of_nil in Hin.
  - split.
    + destruct x as [| | | |s| |]; try (by intros [? ?]).
      destruct (toStringMap m) as [sm|]; [|by intros [? ?]].
      intros _ k' x' [Heq|Hin]%elem_of_cons.
      * injection Heq as -> ->. eauto.
      * apply (proj1 IH (ltac:(by eexists)) k' x' Hin).
    + intros Hall. destruct (Hall k x) as [s ->]; [by left|].
      destruct (proj2 IH) as [sm ->]; [|by eexists].
      intros k' x' Hin. apply (Hall k' x'). by right.
Qed.

Lemma reorder_stringMap (u u' : Unstructured) (fields : list string) :
  reorder (VMap u) (VMap u') ->
  reorder (VMap (inject (nestedStringMapOrNil u fields)))
          (VMap (inject (nestedStringMapOrNil u' fields))).
Proof.
  intros H. unfold nestedStringMapOrNil, NestedFieldNoCopy.
  assert (Hempty : reorder (VMap (inject [])) (VMap (inject []))).
  { constructor; try apply NoDup_nil_2; intros k x Hin; by apply elem_of_nil in Hin. }
  pose proof (reorder_nested _ _ fields H) as Hn.
  destruct (NestedFieldNoCopy_from (VMap u) fields) as [x| |],
           (NestedFieldNoCopy_from (VMap u') fields) as [x'| |]; try done.
  inversion Hn as [| | | | | |m m' Hnd Hnd' Hto Hfrom]; subst; try done.
  destruct (toStringMap m) as [sm|] eqn:Hsm, (toStringMap m') as [sm'|] eqn:Hsm'.
  - by rewrite (toStringMap_inject _ _ Hsm), (toStringMap_inject _ _ Hsm').
  - assert (is_Some (toStringMap m')) as [? ?]; [|congruence].
    apply toStringMap_Some. intros k x' Hin. destruct (Hfrom k x' Hin) as (x & Hx & Hr).
    assert (is_Some (toStringMap m)) as Hs by (by eexists).
    destruct (proj1 (toStringMap_Some m) Hs k x Hx) as [s ->].
    inversion Hr; subst. eauto.
  - assert (is_Some (toStringMap m)) as [? ?]; [|congruence].
    apply toStringMap_Some. intros k x Hin. destruct (Hto k x Hin) as (x' & Hx' & Hr).
    assert (is_Some (toStringMap m')) as Hs by (by eexists).
    destruct (proj1 (toStringMap_Some m') Hs k x' Hx') as [s ->].
    inversion Hr; subst. eauto.
  - done.
Qed.

Lemma reorder_field (u u' : Unstructured) (k : string) :
  reorder (VMap u) (VMap u') -> reorder (field u k) (field u' k).
Proof.
  intros H. pose proof (reorder_index u u' k H) as Hidx. unfold field.
  destruct (index u k), (index u' k); try done. constructor.
Qed.

Lemma reorder_scopeOf (u u' : Unstructured) :
  reorder (VMap u) (VMap u') -> scopeOf u = scopeOf u'.
Proof.
  intros H. unfold scopeOf.
  pose proof (reorder_index u u' "spec" H) as Hs.
  pose proof (reorder_index u u' "webhooks" H) as Hw.
  by destruct (index u "spec"), (index u' "spec"),
       (index u "webhooks"), (index u' "webhooks").
Qed.

Lemma reorder_GetResourceVersion (u u' : Unstructured) :
  reorder (VMap u) (VMap u') -> GetResourceVersion u = GetResourceVersion u'.
Proof.
  intros H. unfold GetResourceVersion, getNestedString, NestedFieldNoCopy.
  pose proof (reorder_nested _ _ ["metadata"; "resourceVersion"] H) as Hn.
  destruct (NestedFieldNoCopy_from (VMap u) _) as [x| |],
           (NestedFieldNoCopy_from (VMap u') _) as [x'| |]; try done.
  by inversion Hn.
Qed.

Lemma hasDrifted_Some_false_resourceVersion (e d : Unstructured) :
  hasDrifted e d = Some false -> GetResourceVersion d <> "".
Proof.
  unfold hasDrifted. intros H Hrv. by rewrite Hrv in H.
Qed.

(** The walk gives the same result when the keys of the maps of both
    operands are enumerated in another order. *)
Lemma deepValueDerive_reorder_eq (v1 v1' v2 v2' : value) :
  reorder v1 v1' -> reorder v2 v2' ->
  deepValueDerive v1 v2 = deepValueDerive v1' v2'.
Proof.
  intros H1 H2.
  destruct (deepValueDerive_total v1 v2) as [b Hb].
  destruct (deepValueDerive_total v1' v2') as [b' Hb'].
  rewrite Hb, Hb'. destruct b, b'; try done.
  - by rewrite (deepValueDerive_reorder v1 v1' v2 v2' H1 H2 Hb) in Hb'.
  - apply reorder_sym in H1, H2.
    by rewrite (deepValueDerive_reorder v1' v1 v2' v2 H1 H2 Hb') in Hb.
Qed.

(** So does the entry point, its panic included: a nil operand is nil in
    any order. *)
Lemma DeepDerivative_reorder (a1 a1' a2 a2' : value) :
  reorder a1 a1' -> reorder a2 a2' ->
  DeepDerivative a1 a2 = DeepDerivative a1' a2'.
Proof.
  intros H1 H2. pose proof (deepValueDerive_reorder_eq a1 a1' a2 a2' H1 H2) as Heq.
  unfold DeepDerivative.
  inversion H1; subst; inversion H2; subst; try reflexivity; exact Heq.
Qed.

Lemma driftChecks_reorder (e e' d d' : Unstructured) :
  reorder (VMap e) (VMap e') -> reorder (VMap d) (VMap d') ->
  driftChecks e d = driftChecks e' d'.
Proof.
  intros He Hd. unfold driftChecks, GetLabels, GetAnnotations.
  rewrite !DeepDerivativeStringMap_inject.
  f_equal; [|f_equal; [|f_equal]].
  - apply deepValueDerive_reorder_eq; by apply reorder_stringMap.
  - apply deepValueDerive_reorder_eq; by apply reorder_stringMap.
  - rewrite <- (reorder_scopeOf e e' He). unfold compareScope, scopeValue.
    destruct (scopeOf e); apply DeepDerivative_reorder; try done;
      by apply reorder_field.
Qed.

(** C7: two pairs of objects that differ only by the order in which the
    keys of their maps, the label and annotation maps among them, are
    enumerated get the same result from [hasDrifted]: the same boolean, or
    a panic in both. *)
Theorem hasDrifted_key_order_independent (e e' d d' : Unstructured) :
  reorder (VMap e) (VMap e') ->
  reorder (VMap d) (VMap d') ->
  hasDrifted e d = hasDrifted e' d'.
Proof.
  intros He Hd.
  pose proof (reorder_GetResourceVersion d d' Hd) as Hrv.
  destruct (String.eqb (GetResourceVersion d) "") eqn:Hempty.
  - unfold hasDrifted. by rewrite <- Hrv, Hempty.
  - apply String.eqb_neq in Hempty.
    rewrite (hasDrifted_firstMismatch e d Hempty).
    rewrite Hrv in Hempty. rewrite (hasDrifted_firstMismatch e' d' Hempty).
    by rewrite (driftChecks_reorder e e' d d' He Hd).
Qed.

Lemma reorder_refl (v : value) : wellFormed v = true -> reorder v v.
Proof.
  induction v as [| b | z | f | s | l IH | m IH] using value_ind'; intros Hwf;
    try constructor.
  - apply wellFormed_list in Hwf.
    induction IH as [|x l Hx _ IHl]; [constructor|].
    apply Forall_cons in Hwf as [Hwx Hwl]. constructor; auto.
  - by apply wellFormed_map in Hwf as [Hnd _].
  - by apply wellFormed_map in Hwf as [Hnd _].
  - apply wellFormed_map in Hwf as [_ Hall]. intros k x Hin. exists x. split; [done|].
    rewrite Forall_forall in IH. apply (IH (k, x) Hin). by apply (Hall k x).
  - apply wellFormed_map in Hwf as [_ Hall]. intros k x Hin. exists x. split; [done|].
    rewrite Forall_forall in IH. apply (IH (k, x) Hin). by apply (Hall k x).
Qed.

(** A map whose entries are taken in another order, with values that are
    themselves reordered. *)
Lemma reorder_permutation (m m1 m' : list (string * value)) :
  NoDup (keys m) ->
  Forall2 (fun a b => fst a = fst b /\ reorder (snd a) (snd b)) m m1 ->
  m1 ≡ₚ m' ->
  reorder (VMap m) (VMap m').
Proof.
  intros Hnd HF Hperm.
  assert (Hkeys : keys m = keys m1).
  { clear Hnd Hperm. unfold keys.
    induction HF as [|a b m m1 [Hab _] HF IHF]; [done|].
    simpl. by rewrite Hab, IHF. }
  constructor.
  - exact Hnd.
  - unfold keys. rewrite <- Hperm. fold (keys m1). by rewrite <- Hkeys.
  - intros k x Hin. apply list_elem_of_lookup in Hin as [i Hi].
    destruct (Forall2_lookup_l _ _ _ _ _ HF Hi) as ([k' x'] & Hi' & Hk & Hr).
    simpl in *. subst k'. exists x'. split; [|done].
    rewrite <- Hperm. apply list_elem_of_lookup. eauto.
  - intros k x' Hin. rewrite <- Hperm in Hin.
    apply list_elem_of_lookup in Hin as [i Hi].
    destruct (Forall2_lookup_r _ _ _ _ _ HF Hi) as ([k' x] & Hi' & Hk & Hr).
    simpl in *. subst k'. exists x. split; [|done].
    apply list_elem_of_lookup. eauto.
Qed.

(** ** The direction of the comparison *)

Lemma extends_map_inv (m : list (string * value)) (v' : value) :
  extends (VMap m) v' ->
  exists m', v' = VMap m' /\ length m <= length m'
    /\ forall k x, index m k = Some x ->
         exists x', index m' k = Some x' /\ extends x x'.
Proof.
  intros H. inversion H as [v|l l' HF|? m' Hnd Hnd' Hto]; subst.
  - exists m. split; [done|]. split; [done|]. intros k x Hk. exists x.
    split; [done|constructor].
  - exists m'. split; [done|]. split.
    + apply keys_length_le; [done|].
      intros k (x & Hin)%elem_of_keys. destruct (Hto k x Hin) as (x' & Hx' & _).
      apply elem_of_keys. eauto.
    + intros k x Hk. apply index_elem_of in Hk.
      destruct (Hto k x Hk) as (x' & Hx' & Hext). exists x'.
      split; [by apply elem_of_index|done].
Qed.

(** A comparison that matches still matches when the second operand gets
    more fields. *)
Lemma deepValueDerive_extends (v1 : value) :
  forall v2 v2', extends v2 v2' ->
    deepValueDerive v1 v2 = Some true -> deepValueDerive v1 v2' = Some true.
Proof.
  induction v1 as [| b | z | f | s | l1 IH | m1 IH] using value_ind';
    intros v2 v2' Hext HD.
  - reflexivity.
  - destruct v2; try discriminate. by inversion Hext; subst.
  - destruct v2; try discriminate. by inversion Hext; subst.
  - destruct v2; try discriminate. by inversion Hext; subst.
  - destruct v2; try discriminate. by inversion Hext; subst.
  - apply deepValueDerive_list_true in HD as (l2 & l2r & -> & HD).
    inversion Hext as [v|? l' HF|]; subst.
    { apply deepValueDerive_list_true. eauto. }
    apply Forall2_app_inv_l in HF as (k2 & k2r & HF & _ & ->).
    apply deepValueDerive_list_true. exists k2, k2r. split; [done|].
    clear Hext. revert k2 HF.
    induction HD as [|x y l1 l2 Hxy HD IHD]; intros k2 HF.
    + inversion HF; subst. constructor.
    + inversion HF as [|? y' ? k2' Hy HF']; subst.
      apply Forall_cons in IH as [IHx IHl]. constructor; eauto.
  - apply deepValueDerive_map_true in HD as (m2 & -> & Hlen & HD).
    apply extends_map_inv in Hext as (m2' & -> & Hlen' & Hto).
    apply deepValueDerive_map_true. exists m2'. split; [done|]. split; [lia|].
    intros k x Hin. destruct (HD k x Hin) as (y & Hy & Hxy).
    destruct (Hto k y Hy) as (y' & Hy' & Hext). exists y'. split; [done|].
    rewrite Forall_forall in IH. exact (IH (k, x) Hin y y' Hext Hxy).
Qed.

Lemma extends_nested (v v' : value) (fields : list string) (x : value) :
  extends v v' -> NestedFieldNoCopy_from v fields = Found x ->
  exists x', NestedFieldNoCopy_from v' fields = Found x' /\ extends x x'.
Proof.
  revert v v'. induction fields as [|f fields IH]; intros v v' Hext; simpl.
  - intros [= <-]. eauto.
  - destruct v as [| | | | | |m]; try done.
    destruct (index m f) as [y|] eqn:Hy; [|done].
    apply extends_map_inv in Hext as (m' & -> & _ & Hto).
    destruct (Hto f y Hy) as (y' & -> & Hext). by apply IH.
Qed.

Lemma index_inject (sm : list (string * string)) (k : string) :
  index (inject sm) k = VString <$> index sm k.
Proof.
  induction sm as [|[k' s] sm IH]; simpl; [done|]. by destruct (String.eqb k k').
Qed.

Lemma deepValueDerive_map_nil (m1 m2 : list (string * value)) :
  deepValueDerive (VMap m1) (VMap []) = Some true ->
  deepValueDerive (VMap m1) (VMap m2) = Some true.
Proof.
  intros (m & [= <-] & Hlen & _)%deepValueDerive_map_true.
  destruct m1; [reflexivity|simpl in Hlen; lia].
Qed.

(** The comparison of the labels, or of the annotations, still matches
    when the existing object gets more fields. *)
Lemma DeepDerivativeStringMap_extends (e e' : Unstructured) (fields : list string)
    (smd : list (string * string)) :
  extends (VMap e) (VMap e') ->
  (forall m, NestedFieldNoCopy e' fields = Found (VMap m) -> is_Some (toStringMap m)) ->
  DeepDerivativeStringMap smd (nestedStringMapOrNil e fields) = Some true ->
  DeepDerivativeStringMap smd (nestedStringMapOrNil e' fields) = Some true.
Proof.
  intros Hext Hstr. rewrite !DeepDerivativeStringMap_inject.
  unfold nestedStringMapOrNil, NestedFieldNoCopy in *.
  destruct (NestedFieldNoCopy_from (VMap e) fields) as [x| |] eqn:Hx;
    try apply deepValueDerive_map_nil.
  destruct x as [| | | | | |m]; try apply deepValueDerive_map_nil.
  destruct (toStringMap m) as [sm|] eqn:Hsm; [|apply deepValueDerive_map_nil].
  destruct (extends_nested _ _ fields _ Hext Hx) as (x' & Hx' & Hext').
  pose proof Hext' as (m' & -> & _)%extends_map_inv.
  rewrite Hx'. destruct (Hstr m' Hx') as [sm' Hsm']. rewrite Hsm'.
  rewrite (toStringMap_inject _ _ Hsm), (toStringMap_inject _ _ Hsm').
  by apply deepValueDerive_extends.
Qed.

(** What a matching comparison says of the first operand: a scalar that
    is set, reached through the fields of its maps, is found with an equal
    value at the same place of the second operand. *)
Lemma deepValueDerive_path (fields : list string) :
  forall v1 v2 x,
    deepValueDerive v1 v2 = Some true ->
    NestedFieldNoCopy_from v1 fields = Found x -> setScalar x = true ->
    exists y, NestedFieldNoCopy_from v2 fields = Found y /\ scalarEqual x y = true.
Proof.
  induction fields as [|f fields IH]; intros v1 v2 x HD; simpl.
  - intros [= <-] Hset. exists v2. split; [done|].
    destruct v1 as [| b | z | fl | s | |]; try done;
      destruct v2; try done; simpl in *; try by injection HD.
    destruct (Nat.eqb (String.length s) 0); [done|by injection HD].
  - destruct v1 as [| | | | | |m1]; try done.
    destruct (index m1 f) as [x1|] eqn:Hx1; [|done].
    apply deepValueDerive_map_true in HD as (m2 & -> & _ & HD).
    destruct (HD f x1 (index_elem_of _ _ _ Hx1)) as (y1 & -> & Hxy).
    by apply IH.
Qed.


Lemma DeepDerivativeStringMap_path (smd sme : list (string * string)) (k s : string) :
  DeepDerivativeStringMap smd sme = Some true ->
  index smd k = Some s -> s <> "" -> index sme k = Some s.
Proof.
  rewrite DeepDerivativeStringMap_inject. intros HD Hk Hs.
  destruct (deepValueDerive_path [k] _ _ (VString s) HD) as (y & Hy & Heq).
  - simpl. by rewrite index_inject, Hk.
  - simpl. by destruct s.
  - simpl in Hy. rewrite index_inject in Hy.
    destruct (index sme k) as [s'|]; [|done]. injection Hy as <-.
    simpl in Heq. by apply String.eqb_eq in Heq as ->.
Qed.

Lemma DeepDerivative_extends (a1 a2 a2' : value) :
  extends a2 a2' -> DeepDerivative a1 a2 = Some true -> DeepDerivative a1 a2' = Some true.
Proof.
  rewrite !DeepDerivative_true. intros Hext. by apply deepValueDerive_extends.
Qed.

Lemma hasDrifted_extends (e e' d : Unstructured) :
  hasDrifted e d = Some false ->
  extends (VMap e) (VMap e') ->
  stringMetadata e' ->
  (forall k, index e k = None -> is_Some (index e' k) -> index d k = None) ->
  hasDrifted e' d = Some false.
Proof.
  intros Hfalse Hext Hmeta Hnew.
  pose proof (hasDrifted_Some_false_resourceVersion e d Hfalse) as Hrv.
  apply (hasDrifted_false e d Hrv) in Hfalse.
  apply (hasDrifted_false e' d Hrv).
  unfold driftChecks in *.
  apply Forall_cons in Hfalse as [Hl Hfalse].
  apply Forall_cons in Hfalse as [Ha Hfalse].
  apply Forall_cons in Hfalse as [Hb _].
  pose proof Hext as (m' & [= <-] & _ & Hto)%extends_map_inv.
  repeat constructor.
  - eapply DeepDerivativeStringMap_extends; [exact Hext|apply Hmeta|exact Hl].
  - eapply DeepDerivativeStringMap_extends; [exact Hext|apply Hmeta|exact Ha].
  - unfold compareScope, scopeOf, scopeValue, field in *.
    destruct (index e "spec") as [es|] eqn:Hes.
    { destruct (Hto "spec" es Hes) as (es' & -> & Hes').
      by eapply DeepDerivative_extends. }
    destruct (index e' "spec") as [es'|] eqn:Hes'.
    { by rewrite (Hnew "spec" Hes (ltac:(by rewrite Hes'))). }
    destruct (index e "webhooks") as [ew|] eqn:Hew.
    { destruct (Hto "webhooks" ew Hew) as (ew' & -> & Hew').
      by eapply DeepDerivative_extends. }
    destruct (index e' "webhooks") as [ew'|] eqn:Hew'.
    { by rewrite (Hnew "webhooks" Hew (ltac:(by rewrite Hew'))). }
    by eapply DeepDerivative_extends.
Qed.


(** ** The apply command *)

Import kustomizer.

Section ApplyCmdProperties.
Variable cluster : Type.
Variable Inventory : Type.
Variable buildManifests : string -> list string -> error + list Unstructured.
Variable Record : list Unstructured -> error + Inventory.
Variable NewResourceManager : option error.
Variable Apply : Unstructured -> bool -> cluster -> (error + ChangeSetEntry) * cluster.
Variable GetStaleObjects :
  Inventory -> string -> string -> cluster -> (error + list Unstructured) * cluster.
Variable Store : Inventory -> string -> string -> cluster -> option error * cluster.
Variable DeleteAll : list Unstructured -> cluster -> (error + list ChangeSetEntry) * cluster.
Variable Wait : list Unstructured -> cluster -> option error * cluster.
Variable WaitForTermination : list Unstructured -> cluster -> option error * cluster.
Variable ChangeString : ChangeSetEntry -> string.

Local Abbreviation call := (call Inventory).
Local Abbreviation run := (run cluster Inventory).
Local Abbreviation Cmd := (Cmd cluster Inventory).
Local Abbreviation applyObjects := (applyObjects cluster Inventory Apply ChangeString).
Local Abbreviation runApplyCmd :=
  (runApplyCmd cluster Inventory buildManifests Record NewResourceManager Apply
     GetStaleObjects Store DeleteAll Wait WaitForTermination ChangeString).

Local Abbreviation adds := (adds cluster Inventory).

Lemma adds_ret P {A} (a : A) : adds P (mret a : Cmd A).
Proof. intros r. exists []. by rewrite app_nil_r. Qed.

Lemma adds_bind P {A B} (m : Cmd A) (k : A -> Cmd B) :
  adds P m -> (forall a, adds P (k a)) -> adds P (m ≫= k).
Proof.
  intros Hm Hk r. unfold mbind, Cmd_bind, cmd_bind.
  destruct (Hm r) as (t & Ht & HP). destruct (m r) as [[err|a] r']; simpl in *.
  - by exists t.
  - destruct (Hk a r') as (t' & Ht' & HP'). exists (t ++ t')%list.
    rewrite Ht', Ht, app_assoc. split; [done|].
    rewrite forallb_app. by rewrite HP, HP'.
Qed.

Lemma adds_Println P line : adds P (Println cluster Inventory line).
Proof. intros r. exists []. by rewrite app_nil_r. Qed.

Lemma adds_invoke P {A} (f : cluster -> (error + A) * cluster) record wrap :
  (forall ok, P (record ok) = true) -> adds P (invoke cluster Inventory f record wrap).
Proof.
  intros HP r. unfold invoke. destruct (f (world _ _ r)) as [[err|a] w]; simpl;
    eexists [_]; (split; [done|]); simpl; by rewrite HP.
Qed.

Lemma adds_printChanges P entries :
  adds P (printChanges cluster Inventory ChangeString entries).
Proof.
  induction entries as [|c entries IH]; simpl.
  - apply adds_ret.
  - apply adds_bind; [apply adds_Println|]. intros _. exact IH.
Qed.

(** The loop: either every [Apply] succeeded, or the calls end with the
    one that failed and the command returns its error. *)
Lemma applyObjects_calls (objects : list Unstructured) (force : bool) (r : run) :
  (fst (applyObjects objects force r) = inr tt
   /\ calls _ _ (snd (applyObjects objects force r))
      = (calls _ _ r ++ map (fun o => CallApply _ o true) objects)%list)
  \/ (exists err applied failed rest,
        fst (applyObjects objects force r) = inl err
        /\ objects = (applied ++ failed :: rest)%list
        /\ calls _ _ (snd (applyObjects objects force r))
           = (calls _ _ r ++ map (fun o => CallApply _ o true) applied
                ++ [CallApply _ failed false])%list).
Proof.
  revert r. induction objects as [|o objects IH]; intros r.
  - left. simpl. by rewrite app_nil_r.
  - simpl. unfold mbind, Cmd_bind, cmd_bind, invoke.
    destruct (Apply o force (world _ _ r)) as [[err|change] w]; simpl.
    + right. exists err, [], o, objects. done.
    + match goal with |- context [applyObjects objects force ?r'] =>
        destruct (IH r') as [[Hres Hcalls]|(err & applied & failed & rest & Hres & Hobj & Hcalls)]
      end.
      * left. rewrite Hres, Hcalls. simpl. by rewrite <- app_assoc.
      * right. exists err, (o :: applied), failed, rest.
        rewrite Hres, Hcalls, Hobj. simpl. by rewrite <- !app_assoc.
Qed.

Lemma cmd_bind_run {A B} (m : Cmd A) (k : A -> Cmd B) (r : run) :
  (m ≫= k) r
  = match m r with
    | (inr a, r') => k a r'
    | (inl err, r') => (inl err, r')
    end.
Proof. reflexivity. Qed.

Lemma cmd_bind_ret {A B} (a : A) (k : A -> Cmd B) (r : run) :
  (mret a ≫= k) r = k a r.
Proof. reflexivity. Qed.

Lemma cmd_bind_fail {A B} (err : error) (k : A -> Cmd B) (r : run) :
  (fail cluster Inventory err ≫= k) r = (inl err, r).
Proof. reflexivity. Qed.

Lemma try_inl {A} (wrap : error -> error) (err : error) :
  try cluster Inventory wrap (inl err : error + A) = fail cluster Inventory (wrap err).
Proof. reflexivity. Qed.

Lemma try_inr {A} (wrap : error -> error) (a : A) :
  try cluster Inventory wrap (inr a) = mret a.
Proof. reflexivity. Qed.

Ltac early_exit :=
  intros ? <-; exists []; rewrite app_nil_r; cbn [fst snd fail];
  split; [reflexivity|]; left; split; [reflexivity|]; split; [reflexivity|];
  eexists; reflexivity.

(** The calls of a run of the command, in their four shapes: none; the
    successful applies and the failing one; all the applies and a failing
    inventory query; all the applies, the query, the store and what comes
    after it. *)
Lemma runApplyCmd_calls (applyArgs : applyFlags) (r : run) :
  exists new,
    calls _ _ (snd (runApplyCmd applyArgs r)) = (calls _ _ r ++ new)%list
    /\ ((new = [] /\ snd (runApplyCmd applyArgs r) = r
           /\ exists err, fst (runApplyCmd applyArgs r) = inl err)
        \/ (exists objects err applied failed rest,
              buildManifests (kustomize applyArgs) (filename applyArgs) = inr objects
              /\ objects = (applied ++ failed :: rest)%list
              /\ fst (runApplyCmd applyArgs r) = inl err
              /\ snd (runApplyCmd applyArgs r)
                 = snd (applyObjects objects (force applyArgs) r)
              /\ new = (map (fun o => CallApply _ o true) applied
                          ++ [CallApply _ failed false])%list)
        \/ (exists objects err,
              buildManifests (kustomize applyArgs) (filename applyArgs) = inr objects
              /\ fst (runApplyCmd applyArgs r) = inl err
              /\ new = (map (fun o => CallApply _ o true) objects
                          ++ [CallGetStaleObjects _ false])%list)
        \/ (exists objects inventory ok tail,
              buildManifests (kustomize applyArgs) (filename applyArgs) = inr objects
              /\ Record objects = inr inventory
              /\ new = (map (fun o => CallApply _ o true) objects
                          ++ [CallGetStaleObjects _ true; CallStore _ inventory ok]
                          ++ tail)%list
              /\ forallb (afterStore Inventory) tail = true)).
Proof.
  remember (runApplyCmd applyArgs r) as out eqn:Hout. symmetry in Hout.
  revert out Hout. unfold kustomizer.runApplyCmd.
  destruct (_ && _); [early_exit|].
  destruct (String.eqb (inventoryName applyArgs) ""); [early_exit|].
  destruct (String.eqb (inventoryNamespace applyArgs) ""); [early_exit|].
  destruct (buildManifests _ _) as [err|objects] eqn:Hbuild;
    [rewrite try_inl, cmd_bind_fail; early_exit|rewrite try_inr, cmd_bind_ret].
  destruct (Record objects) as [err|inventory] eqn:Hrecord;
    [rewrite try_inl, cmd_bind_fail; early_exit|rewrite try_inr, cmd_bind_ret].
  destruct NewResourceManager as [err|];
    [rewrite try_inl, cmd_bind_fail; early_exit|rewrite try_inr, cmd_bind_ret].
  rewrite cmd_bind_run.
  destruct (applyObjects_calls objects (force applyArgs) r)
    as [[Hres Hcalls]|(err & applied & failed & rest & Hres & Hobj & Hcalls)].
  2:{ destruct (applyObjects objects (force applyArgs) r) as [res r1] eqn:Hrun; simpl in *.
      subst res. intros out <-. eexists. split; [exact Hcalls|].
      right; left. exists objects, err, applied, failed, rest. by rewrite Hrun. }
  destruct (applyObjects objects (force applyArgs) r) as [res r1] eqn:Hrun; simpl in *.
  subst res.
  rewrite cmd_bind_run. unfold invoke at 1.
  destruct (GetStaleObjects _ _ _ (world _ _ r1)) as [[err|staleObjects] w2]; simpl.
  { intros out <-. eexists. simpl. rewrite Hcalls, <- app_assoc. split; [done|].
    right; right; left. exists objects. by eexists. }
  match goal with
  | |- context [mbind ?k (invoke _ _ (status _ _) (CallStore _ _) _)] =>
      set (tailCmd := k)
  end.
  rewrite cmd_bind_run. unfold invoke at 1, status at 1.
  assert (Htail : adds (afterStore Inventory) (tailCmd tt)).
  { subst tailCmd. cbv beta. apply adds_bind.
    - destruct (_ && _); [|apply adds_ret].
      apply adds_bind; [by apply adds_invoke|]. intros entries. apply adds_printChanges.
    - intros _. destruct (wait applyArgs); [|apply adds_ret].
      apply adds_bind; [apply adds_Println|]. intros _.
      apply adds_bind; [by apply adds_invoke|]. intros _.
      apply adds_bind; [|intros _; apply adds_Println].
      destruct (_ && _); [by apply adds_invoke|apply adds_ret]. }
  cbn [world calls logged].
  destruct (Store _ _ _ w2) as [[err|] w3]; simpl.
  { intros out <-. eexists. simpl. rewrite Hcalls, <- !app_assoc. split; [done|].
    right; right; right. exists objects, inventory, false, []. done. }
  match goal with |- context [tailCmd tt ?r'] => destruct (Htail r') as (t & Ht & HP) end.
  intros out <-. simpl in Ht. eexists. rewrite Ht, Hcalls, <- !app_assoc. split; [done|].
  right; right; right. exists objects, inventory, true, t. done.
Qed.

Lemma split_at_store (l1 l2 pre post : list call) (x y : call) :
  forallb (fun c => negb (isStore Inventory c)) l1 = true ->
  forallb (fun c => negb (isStore Inventory c)) l2 = true ->
  isStore Inventory y = true ->
  (l1 ++ x :: l2 = pre ++ y :: post)%list ->
  pre = l1.
Proof.
  intros H1 H2 Hy. revert pre. induction l1 as [|a l1 IH]; intros pre Heq.
  - destruct pre as [|b pre]; [done|]. simpl in Heq. injection Heq as -> ->.
    rewrite forallb_app in H2. simpl in H2. rewrite Hy in H2.
    by rewrite andb_false_r in H2.
  - simpl in H1. apply andb_true_iff in H1 as [Ha H1].
    destruct pre as [|b pre]; simpl in Heq; injection Heq as -> Heq.
    + by rewrite Hy in Ha.
    + f_equal. by apply IH.
Qed.

Lemma applies_not_store (objects : list Unstructured) :
  forallb (fun c => negb (isStore Inventory c))
    (map (fun o => CallApply Inventory o true) objects) = true.
Proof. by induction objects. Qed.

Lemma afterStore_not_store (tail : list call) :
  forallb (afterStore Inventory) tail = true ->
  forallb (fun c => negb (isStore Inventory c)) tail = true.
Proof.
  induction tail as [|c tail IH]; [done|]. simpl.
  intros [Hc Htail]%andb_true_iff. rewrite (IH Htail). by destruct c.
Qed.

Section InventoryRecord.
(** The inventory record held by the cluster; [Apply] writes the objects
    of the manifests, not the record. *)
Variable R : Type.
Variable inventoryRecord : cluster -> R.
Hypothesis Apply_keeps_the_record :
  forall o f w, inventoryRecord (snd (Apply o f w)) = inventoryRecord w.

Lemma applyObjects_record (objects : list Unstructured) (force : bool) (r : run) :
  inventoryRecord (world _ _ (snd (applyObjects objects force r)))
  = inventoryRecord (world _ _ r).
Proof.
  revert r. induction objects as [|o objects IH]; intros r; [done|].
  simpl. rewrite cmd_bind_run. unfold invoke.
  pose proof (Apply_keeps_the_record o force (world _ _ r)) as Hw.
  destruct (Apply o force (world _ _ r)) as [[err|change] w]; simpl in *; [done|].
  rewrite cmd_bind_run. simpl. by rewrite IH.
Qed.

(** C8: in a run of the apply command the inventory is stored only after
    every object of the manifests has been applied with success and the
    stale objects have been queried; when an [Apply] fails the command
    returns its error with no call of [GetStaleObjects] and none of [Store]
    made, and the inventory record of the cluster is the one from before
    the run. *)
Theorem runApplyCmd_stores_after_all_applies
    (applyArgs : applyFlags) (r : run) (new : list call) :
  calls _ _ (snd (runApplyCmd applyArgs r)) = (calls _ _ r ++ new)%list ->
  (forall pre inventory ok post,
     new = (pre ++ CallStore _ inventory ok :: post)%list ->
     exists objects,
       buildManifests (kustomize applyArgs) (filename applyArgs) = inr objects
       /\ pre = (map (fun o => CallApply _ o true) objects
                  ++ [CallGetStaleObjects _ true])%list)
  /\ (forall object,
        CallApply _ object false ∈ new ->
        (exists err, fst (runApplyCmd applyArgs r) = inl err)
        /\ (forall inventory ok, CallStore _ inventory ok ∉ new)
        /\ (forall ok, CallGetStaleObjects _ ok ∉ new)
        /\ inventoryRecord (world _ _ (snd (runApplyCmd applyArgs r)))
           = inventoryRecord (world _ _ r)).
Proof.
  intros Hnew.
  destruct (runApplyCmd_calls applyArgs r) as (new' & Hcalls & Hshape).
  rewrite Hcalls in Hnew. apply app_inv_head in Hnew as <-.
  assert (Hmap : forall objects c,
            c ∈ map (fun o => CallApply Inventory o true) objects ->
            exists o, c = CallApply _ o true).
  { intros objects c (o & -> & _)%list_elem_of_fmap. eauto. }
  destruct Hshape as [(-> & Hsame & err & Herr)
                     |[(objects & err & applied & failed & rest
                        & Hbuild & Hobj & Herr & Hsnd & ->)
                     |[(objects & err & Hbuild & Herr & ->)
                     |(objects & inventory & ok & tail & Hbuild & Hrecord & -> & Htail)]]].
  - split.
    + intros pre inv ok post Heq. by destruct pre.
    + intros o Hin. by apply elem_of_nil in Hin.
  - split.
    + intros pre inv ok post Heq.
      assert (Hin : CallStore _ inv ok
                    ∈ (map (fun o => CallApply Inventory o true) applied
                       ++ [CallApply _ failed false])%list).
      { rewrite Heq. apply elem_of_app. right. by left. }
      apply elem_of_app in Hin as [Hin|Hin].
      * by destruct (Hmap _ _ Hin).
      * by apply list_elem_of_singleton in Hin.
    + intros o _. split; [by eexists|]. split; [|split].
      * intros inv ok [Hin|Hin]%elem_of_app.
        -- by destruct (Hmap _ _ Hin).
        -- by apply list_elem_of_singleton in Hin.
      * intros ok [Hin|Hin]%elem_of_app.
        -- by destruct (Hmap _ _ Hin).
        -- by apply list_elem_of_singleton in Hin.
      * rewrite Hsnd. apply applyObjects_record.
  - split.
    + intros pre inv ok post Heq.
      assert (Hin : CallStore _ inv ok
                    ∈ (map (fun o => CallApply Inventory o true) objects
                       ++ [CallGetStaleObjects _ false])%list).
      { rewrite Heq. apply elem_of_app. right. by left. }
      apply elem_of_app in Hin as [Hin|Hin].
      * by destruct (Hmap _ _ Hin).
      * by apply list_elem_of_singleton in Hin.
    + intros o [Hin|Hin]%elem_of_app.
      * by destruct (Hmap _ _ Hin).
      * by apply list_elem_of_singleton in Hin.
  - split.
    + intros pre inv ok' post Heq. exists objects. split; [done|].
      apply (split_at_store _ tail pre post (CallStore _ inventory ok) (CallStore _ inv ok')).
      * rewrite forallb_app, applies_not_store. done.
      * by apply afterStore_not_store.
      * done.
      * rewrite <- app_assoc. exact Heq.
    + intros o [Hin|Hin]%elem_of_app.
      * by destruct (Hmap _ _ Hin).
      * apply elem_of_cons in Hin as [?|Hin]; [done|].
        apply elem_of_cons in Hin as [?|Hin]; [done|].
        exfalso. apply list_elem_of_In in Hin.
        rewrite forallb_forall in Htail. by specialize (Htail _ Hin).
Qed.

End InventoryRecord.
End ApplyCmdProperties.

(** * Examples *)

Import fixtures.

(** First apply of a ConfigMap: the dry-run result has no resource
    version. *)
Lemma Diff_created_witness :
  heapWith (configMap "" labelsAB "a") !! 1%positive = Some (configMap "" labelsAB "a")
  /\ fst (Diff (getFails (StatusError true "not found"))
            (serverAnswers (configMap "" labelsAB "a")) yamlOf diffOf 1%positive
            (heapWith (configMap "" labelsAB "a")))
     = Some (inr (changeSetEntry (configMap "" labelsAB "a") CreatedAction)).
Proof.
  split; [reflexivity|].
  refine (proj1 (Diff_created_without_resource_version
                   (getFails (StatusError true "not found"))
                   (serverAnswers (configMap "" labelsAB "a")) yamlOf diffOf
                   (heapWith (configMap "" labelsAB "a")) 1%positive
                   (configMap "" labelsAB "a") _ _ _)); reflexivity.
Defined.

(** The labels do not match: the result is true at the first check. *)
Lemma hasDrifted_checks_witness :
  GetResourceVersion (configMap "7" [("app", VString "api")] "a") <> ""
  /\ hasDrifted (configMap "7" labelsAB "a") (configMap "7" [("app", VString "api")] "a")
     = Some true.
Proof.
  assert (Hrv : GetResourceVersion (configMap "7" [("app", VString "api")] "a") <> "")
    by (vm_compute; discriminate).
  split; [exact Hrv|].
  apply (proj1 (proj2 (proj2 (hasDrifted_checks_in_order
                                (configMap "7" labelsAB "a")
                                (configMap "7" [("app", VString "api")] "a") Hrv)))
           [] [Some true; Some false]); [reflexivity|constructor].
Defined.



(** Second apply of a ConfigMap that is already live. *)
Lemma Diff_unchanged_witness :
  heapWith (configMap "" labelsAB "a") !! 1%positive = Some (configMap "" labelsAB "a")
  /\ GetResourceVersion (configMap "7" labelsAB "a") <> ""
  /\ wellFormed (VMap (configMap "7" labelsAB "a")) = true
  /\ exists cse,
       fst (Diff (getLive (configMap "7" labelsAB "a"))
              (serverAnswers (configMap "7" labelsAB "a")) yamlOf diffOf 1%positive
              (heapWith (configMap "" labelsAB "a"))) = Some (inr cse)
       /\ cse = changeSetEntry (configMap "7" labelsAB "a") UnchangedAction
       /\ EntryAction cse = UnchangedAction
       /\ Diff_text cse = "".
Proof.
  assert (Hrv : GetResourceVersion (configMap "7" labelsAB "a") <> "")
    by (vm_compute; discriminate).
  split; [reflexivity|]. split; [exact Hrv|]. split; [reflexivity|].
  apply (Diff_unchanged_on_second_call (getLive (configMap "7" labelsAB "a"))
           (serverAnswers (configMap "7" labelsAB "a")) yamlOf diffOf
           (heapWith (configMap "" labelsAB "a")) 1%positive
           (configMap "" labelsAB "a") (configMap "7" labelsAB "a"));
    [reflexivity|reflexivity|reflexivity|exact Hrv|reflexivity].
Defined.



(** A Secret whose value changed: the two sides are masked with the two
    tokens. *)
Lemma Diff_masks_witness :
  heapWith (secret "" "czNjcjN0") !! 1%positive = Some (secret "" "czNjcjN0")
  /\ GetKind (secret "8" "czNjcjN0") = "Secret"
  /\ fst (Diff (getLive (secret "7" "b2xk")) (serverAnswers (secret "8" "czNjcjN0"))
            yamlOf diffOf 1%positive (heapWith (secret "" "czNjcjN0")))
     = Some (inr {| Subject := "Secret/prod/db"; EntryAction := ConfiguredAction;
                    Diff_text := "Secret/prod/db:***** => Secret/prod/db:******" |})
  /\ dryRunMask <> existingMask.
Proof.
  split; [reflexivity|]. split; [reflexivity|]. split; [vm_compute; reflexivity|].
  apply (proj1 (Diff_masks_the_two_sides_differently
                  (getLive (secret "7" "b2xk")) (serverAnswers (secret "8" "czNjcjN0"))
                  yamlOf diffOf (heapWith (secret "" "czNjcjN0")) 1%positive
                  (secret "" "czNjcjN0")
                  {| Subject := "Secret/prod/db"; EntryAction := ConfiguredAction;
                     Diff_text := "Secret/prod/db:***** => Secret/prod/db:******" |}
                  eq_refl eq_refl eq_refl eq_refl)).
Defined.

(** The labels of both objects enumerated in the other order. *)
Lemma hasDrifted_key_order_witness :
  reorder (VMap (configMap "7" labelsAB "a")) (VMap (configMap "7" labelsBA "a"))
  /\ hasDrifted (configMap "7" labelsAB "a") (configMap "7" labelsAB "a") = Some false
  /\ hasDrifted (configMap "7" labelsBA "a") (configMap "7" labelsBA "a") = Some false.
Proof.
  assert (Hnd : forall m : list (string * value),
            bool_decide (NoDup (keys m)) = true -> NoDup (keys m)).
  { intros m. apply bool_decide_eq_true_1. }
  assert (Hr : reorder (VMap (configMap "7" labelsAB "a"))
                 (VMap (configMap "7" labelsBA "a"))).
  { unfold configMap, labelsAB, labelsBA.
    eapply reorder_permutation; [by apply Hnd| |reflexivity].
    repeat (apply List.Forall2_cons; [split; [reflexivity|]|]);
      try apply List.Forall2_nil; try apply reorder_string.
    - apply (reorder_permutation _ [ ("name", VString "cfg1");
                                     ("namespace", VString "default");
                                     ("resourceVersion", VString "7");
                                     ("labels", VMap labelsBA) ]);
        [by apply Hnd| |reflexivity].
      repeat (apply List.Forall2_cons; [split; [reflexivity|]|]);
        try apply List.Forall2_nil; try apply reorder_string.
      apply (reorder_permutation _ [ ("app", VString "web"); ("tier", VString "front") ]);
        [by apply Hnd| |apply perm_swap].
      repeat (apply List.Forall2_cons; [split; [reflexivity|]|]);
        try apply List.Forall2_nil; apply reorder_string.
    - apply (reorder_permutation _ [ ("k", VString "a") ]); [by apply Hnd| |reflexivity].
      repeat (apply List.Forall2_cons; [split; [reflexivity|]|]);
        try apply List.Forall2_nil; apply reorder_string. }
  assert (H : hasDrifted (configMap "7" labelsAB "a") (configMap "7" labelsAB "a")
              = Some false) by (vm_compute; reflexivity).
  split; [exact Hr|]. split; [exact H|].
  rewrite <- H. symmetry.
  exact (hasDrifted_key_order_independent
           (configMap "7" labelsAB "a") (configMap "7" labelsBA "a")
           (configMap "7" labelsAB "a") (configMap "7" labelsBA "a") Hr Hr).
Defined.

(** A run whose second [Apply] fails: nothing is stored and the record is
    the old one. *)
Lemma runApplyCmd_witness :
  calls _ _ (snd (runWith [named "a"; named "bad"; named "c"]))
  = [ CallApply _ (named "a") true; CallApply _ (named "bad") false ]
  /\ (forall inventory ok,
        CallStore _ inventory ok
        ∉ [ CallApply (list string) (named "a") true; CallApply _ (named "bad") false ])
  /\ world _ _ (snd (runWith [named "a"; named "bad"; named "c"])) = ["old"].
Proof.
  split; [reflexivity|].
  assert (Hkeep : forall o f (w : list string), id (snd (applyOrFail o f w)) = id w).
  { intros o f w. unfold applyOrFail. by destruct (String.eqb _ _). }
  pose proof (proj2 (runApplyCmd_stores_after_all_applies
                       (list string) (list string)
                       (fun _ _ => inr [named "a"; named "bad"; named "c"])
                       (fun objects => inr (namesOf objects)) None applyOrFail
                       (fun _ _ _ w => (inr [], w))
                       (fun inventory _ _ _ => (None, inventory))
                       (fun _ w => (inr [], w)) (fun _ w => (None, w))
                       (fun _ w => (None, w)) Subject
                       (list string) id Hkeep flags emptyRun
                       [ CallApply _ (named "a") true; CallApply _ (named "bad") false ]
                       eq_refl)
                (named "bad")) as H.
  destruct H as (_ & Hstore & _ & Hrecord).
  { apply list_elem_of_further, list_elem_of_here. }
  split; [exact Hstore|exact Hrecord].
Defined.

(** A [Get] that is forbidden. *)
Lemma Diff_ignores_Get_failure_witness :
  heapWith (configMap "" labelsAB "a") !! 1%positive = Some (configMap "" labelsAB "a")
  /\ existingAfterGet (getFails (StatusError false "forbidden")) (configMap "" labelsAB "a")
     = configMap "" labelsAB "a".
Proof.
  split; [reflexivity|].
  exact (proj1 (Diff_ignores_Get_failure (getFails (StatusError false "forbidden"))
                  (serverAnswers (configMap "7" labelsAB "b")) yamlOf diffOf
                  (heapWith (configMap "" labelsAB "a")) 1%positive
                  (configMap "" labelsAB "a") (StatusError false "forbidden")
                  eq_refl eq_refl)).
Defined.

(** A label of the dry-run object that the existing object lacks is
    drift, whether its key is enumerated before or after a label that
    differs. *)
Example hasDrifted_missing_label_by_order :
  hasDrifted (configMap "7" [("app", VString "api"); ("zone", VString "b")] "a")
             (configMap "7" labelsAB "a") = Some true
  /\ hasDrifted (configMap "7" [("app", VString "api"); ("zone", VString "b")] "a")
                (configMap "7" labelsBA "a") = Some true.
Proof. vm_compute. by split. Qed.

(** * Further properties *)

(** ** The one panic of [hasDrifted] *)

Lemma DeepDerivative_None (a1 a2 : value) :
  DeepDerivative a1 a2 = None <-> a2 = VNil /\ a1 <> VNil.
Proof.
  unfold DeepDerivative.
  destruct (deepValueDerive_total a1 a2) as [b Hb].
  destruct a1, a2; rewrite ?Hb; split; try done; try (by intros [? ?]).
Qed.

Lemma DeepDerivativeStringMap_total (m1 m2 : list (string * string)) :
  is_Some (DeepDerivativeStringMap m1 m2).
Proof. rewrite DeepDerivativeStringMap_inject. apply deepValueDerive_total. Qed.

(** [hasDrifted] panics exactly when the labels and the annotations match
    and the body scope of the existing object is null while that of the
    dry-run object is not. *)
Lemma hasDrifted_None (e d : Unstructured) :
  hasDrifted e d = None <->
  GetResourceVersion d <> ""
  /\ DeepDerivativeStringMap (GetLabels d) (GetLabels e) = Some true
  /\ DeepDerivativeStringMap (GetAnnotations d) (GetAnnotations e) = Some true
  /\ scopeValue (scopeOf e) e = VNil
  /\ scopeValue (scopeOf e) d <> VNil.
Proof.
  destruct (String.eqb (GetResourceVersion d) "") eqn:Hrv.
  { unfold hasDrifted. rewrite Hrv. apply String.eqb_eq in Hrv.
    split; [done|]. by intros [? _]. }
  apply String.eqb_neq in Hrv.
  rewrite (hasDrifted_firstMismatch e d Hrv). unfold driftChecks, compareScope.
  destruct (DeepDerivativeStringMap_total (GetLabels d) (GetLabels e)) as [bl ->].
  destruct (DeepDerivativeStringMap_total (GetAnnotations d) (GetAnnotations e))
    as [ba ->].
  destruct bl; simpl; [|split; [done|by intros (_ & ? & _)]].
  destruct ba; simpl; [|split; [done|by intros (_ & _ & ? & _)]].
  destruct (DeepDerivative _ _) as [[|]|] eqn:HD.
  - split; [done|]. intros (_ & _ & _ & Hnil & Hd).
    assert (DeepDerivative (scopeValue (scopeOf e) d) (scopeValue (scopeOf e) e) = None)
      as Hnone by (by apply DeepDerivative_None). congruence.
  - split; [done|]. intros (_ & _ & _ & Hnil & Hd).
    assert (DeepDerivative (scopeValue (scopeOf e) d) (scopeValue (scopeOf e) e) = None)
      as Hnone by (by apply DeepDerivative_None). congruence.
  - apply DeepDerivative_None in HD as [Hnil Hd]. by split.
Qed.

(** ** The results of [Diff] *)

Section DiffResults.
Variable kubeGet : ObjectKey -> Unstructured -> error + Unstructured.
Variable dryRunApplyServer : Unstructured -> option error * Unstructured.
Variable yamlMarshal : Unstructured -> string.
Variable cmpDiff : string -> string -> string.

Local Abbreviation Diff := (Diff kubeGet dryRunApplyServer yamlMarshal cmpDiff).
Local Abbreviation existing := (existingAfterGet kubeGet).

(** An entry returned by [Diff] is Created, Unchanged or Configured, as the
    resource version of the dry-run result and [hasDrifted] decide; Created
    and Unchanged entries are those of the dry-run result and carry no diff
    text, a Configured entry has the subject of the caller's object and the
    diff of the two rendered objects. *)
Theorem Diff_entry_classification (h : heap) (object : loc) (o : Unstructured)
    (cse : ChangeSetEntry) :
  h !! object = Some o ->
  fst (Diff object h) = Some (inr cse) ->
  fst (dryRunApplyServer o) = None
  /\ ((GetResourceVersion (snd (dryRunApplyServer o)) = ""
       /\ cse = changeSetEntry (snd (dryRunApplyServer o)) CreatedAction)
      \/ (GetResourceVersion (snd (dryRunApplyServer o)) <> ""
          /\ hasDrifted (existing o) (snd (dryRunApplyServer o)) = Some false
          /\ cse = changeSetEntry (snd (dryRunApplyServer o)) UnchangedAction)
      \/ (GetResourceVersion (snd (dryRunApplyServer o)) <> ""
          /\ hasDrifted (existing o) (snd (dryRunApplyServer o)) = Some true
          /\ EntryAction cse = ConfiguredAction
          /\ Subject cse = FmtUnstructured o
          /\ exists e' d',
               rendered (existing o) (snd (dryRunApplyServer o)) = inr (e', d')
               /\ Diff_text cse = cmpDiff (yamlMarshal e') (yamlMarshal d')))
  /\ (Diff_text cse <> "" -> EntryAction cse = ConfiguredAction)
  /\ EntryAction cse <> SkippedAction
  /\ EntryAction cse <> DeletedAction
  /\ EntryAction cse <> FailedAction.
Proof.
  intros Ho.
  destruct (Diff_run kubeGet dryRunApplyServer yamlMarshal cmpDiff h object o Ho) as [-> _].
  unfold diffOutcome.
  destruct (fst (dryRunApplyServer o)) as [err|]; [done|].
  destruct (String.eqb (GetResourceVersion _) "") eqn:Hrv.
  { apply String.eqb_eq in Hrv. intros [= <-]. split; [done|]. split; [by left|done]. }
  apply String.eqb_neq in Hrv.
  destruct (hasDrifted _ _) as [[|]|]; [|intros [= <-]|done].
  - unfold configured. destruct (rendered _ _) as [?|[e' d']] eqn:Hren; [done|].
    intros [= <-]. split; [done|]. split; [|done].
    right; right. repeat (split; [done|]). by exists e', d'.
  - split; [done|]. split; [|done]. right; left. done.
Qed.

(** An error returned by [Diff] is the validation error of a failed dry-run
    apply, made from the object as the dry-run left it, or the error of a
    failed masking of a Secret that has drifted. A failing dry-run apply
    gives its validation error whatever [Get] answered and without any
    comparison being run. *)
Theorem Diff_error_results (h : heap) (object : loc) (o : Unstructured) :
  h !! object = Some o ->
  (forall err,
     fst (dryRunApplyServer o) = Some err ->
     fst (Diff object h) = Some (inl (validationError (snd (dryRunApplyServer o)) err)))
  /\ (forall e,
        fst (Diff object h) = Some (inl e) ->
        (exists err, fst (dryRunApplyServer o) = Some err
                     /\ e = validationError (snd (dryRunApplyServer o)) err)
        \/ (fst (dryRunApplyServer o) = None
            /\ hasDrifted (existing o) (snd (dryRunApplyServer o)) = Some true
            /\ GetKind (snd (dryRunApplyServer o)) = "Secret"
            /\ exists err, e = maskingFailed err)).
Proof.
  intros Ho.
  destruct (Diff_run kubeGet dryRunApplyServer yamlMarshal cmpDiff h object o Ho) as [-> _].
  unfold diffOutcome. split.
  - intros err Herr. by rewrite Herr.
  - intros e. destruct (fst (dryRunApplyServer o)) as [err|].
    { intros [= <-]. left. by exists err. }
    destruct (String.eqb (GetResourceVersion _) ""); [done|].
    destruct (hasDrifted _ _) as [[|]|]; [|done|done].
    unfold configured, rendered. rewrite GetKind_managedFields.
    destruct (String.eqb (GetKind _) "Secret") eqn:Hkind; [|done].
    apply String.eqb_eq in Hkind.
    destruct (MaskSecret (RemoveNestedField (snd (dryRunApplyServer o)) _) _) as [err|d2].
    { intros [= <-]. right. repeat (split; [done|]). by exists err. }
    destruct (MaskSecret (RemoveNestedField (existing o) _) _) as [err|e2]; [|done].
    intros [= <-]. right. repeat (split; [done|]). by exists err.
Qed.

(** [Diff] panics exactly when the dry-run apply succeeded with a resource
    version, the labels and the annotations match, and the body scope of
    the existing object ([spec], else [webhooks]) is null while that of the
    dry-run result is not: the one call of [DeepDerivative] whose second
    operand is nil. In every other case [Diff] returns an entry or an
    error. *)
Theorem Diff_panics_on_null_body (h : heap) (object : loc) (o : Unstructured) :
  h !! object = Some o ->
  fst (Diff object h) = None <->
  fst (dryRunApplyServer o) = None
  /\ GetResourceVersion (snd (dryRunApplyServer o)) <> ""
  /\ DeepDerivativeStringMap (GetLabels (snd (dryRunApplyServer o)))
       (GetLabels (existing o)) = Some true
  /\ DeepDerivativeStringMap (GetAnnotations (snd (dryRunApplyServer o)))
       (GetAnnotations (existing o)) = Some true
  /\ scopeValue (scopeOf (existing o)) (existing o) = VNil
  /\ scopeValue (scopeOf (existing o)) (snd (dryRunApplyServer o)) <> VNil.
Proof.
  intros Ho.
  destruct (Diff_run kubeGet dryRunApplyServer yamlMarshal cmpDiff h object o Ho) as [-> _].
  unfold diffOutcome.
  destruct (fst (dryRunApplyServer o)) as [err|].
  { split; [done|]. by intros [? _]. }
  destruct (String.eqb (GetResourceVersion _) "") eqn:Hrv.
  { apply String.eqb_eq in Hrv. split; [done|]. by intros (_ & ? & _). }
  apply String.eqb_neq in Hrv.
  rewrite <- (hasDrifted_None (existing o) (snd (dryRunApplyServer o))).
  destruct (hasDrifted _ _) as [[|]|]; split; try done; by intros (_ & ?).
Qed.

(** A second [Diff] of the same pointer, the cluster answering the same,
    returns what the first one returned: the copies made by the first call
    stay in the store and change nothing for the second. *)
Theorem Diff_twice (h : heap) (object : loc) (o : Unstructured) :
  h !! object = Some o ->
  fst (Diff object (snd (Diff object h))) = fst (Diff object h).
Proof.
  intros Ho.
  destruct (Diff_run kubeGet dryRunApplyServer yamlMarshal cmpDiff h object o Ho)
    as [Hres Hframe].
  assert (Ho' : snd (Diff object h) !! object = Some o).
  { rewrite <- Ho. apply Hframe. rewrite Ho. by eexists. }
  destruct (Diff_run kubeGet dryRunApplyServer yamlMarshal cmpDiff _ object o Ho')
    as [-> _].
  by rewrite Hres.
Qed.

End DiffResults.

(** ** What reaches the renderer *)

Lemma index_delete_key_eq {A} (m : list (string * A)) k :
  index (delete_key k m) k = None.
Proof.
  induction m as [|[k' v] m IH]; simpl; [done|].
  destruct (String.eqb k k') eqn:Hk; [exact IH|]. simpl. by rewrite Hk.
Qed.

Lemma index_delete_key_ne {A} (m : list (string * A)) k k' :
  k <> k' -> index (delete_key k m) k' = index m k'.
Proof.
  intros Hne. induction m as [|[k0 v] m IH]; simpl; [done|].
  destruct (String.eqb k k0) eqn:Hk; simpl.
  - apply String.eqb_eq in Hk as <-.
    apply not_eq_sym in Hne. apply String.eqb_neq in Hne. by rewrite Hne.
  - by rewrite IH.
Qed.

Lemma RemoveNestedField_removes (u : Unstructured) (a b : string) (x : value) :
  NestedFieldNoCopy (RemoveNestedField u [a; b]) [a; b] <> Found x.
Proof.
  unfold NestedFieldNoCopy. simpl.
  destruct (index u a) as [v|] eqn:Ha.
  - destruct v as [| | | | | |m]; try (rewrite Ha; done).
    rewrite index_assign_eq, index_delete_key_eq. done.
  - by rewrite Ha.
Qed.

Lemma NestedFieldNoCopy_cons (u : Unstructured) (k : string) (fields : list string) :
  NestedFieldNoCopy u (k :: fields)
  = match index u k with
    | Some v => NestedFieldNoCopy_from v fields
    | None => Missing
    end.
Proof. reflexivity. Qed.

Section Rendering.
Variable kubeGet : ObjectKey -> Unstructured -> error + Unstructured.
Variable dryRunApplyServer : Unstructured -> option error * Unstructured.
Variable yamlMarshal : Unstructured -> string.
Variable cmpDiff : string -> string -> string.

Local Abbreviation Diff := (Diff kubeGet dryRunApplyServer yamlMarshal cmpDiff).
Local Abbreviation existing := (existingAfterGet kubeGet).

(** The diff text of a Configured entry is rendered from two objects in
    which [metadata.managedFields] is not found, for a Secret as for any
    other kind; for a kind other than Secret they are the existing and the
    dry-run object with that field removed and nothing masked. *)
Theorem Diff_renders_without_managedFields (h : heap) (object : loc) (o : Unstructured)
    (cse : ChangeSetEntry) :
  h !! object = Some o ->
  fst (Diff object h) = Some (inr cse) ->
  EntryAction cse = ConfiguredAction ->
  exists e' d',
    Diff_text cse = cmpDiff (yamlMarshal e') (yamlMarshal d')
    /\ (forall x, NestedFieldNoCopy e' ["metadata"; "managedFields"] <> Found x)
    /\ (forall x, NestedFieldNoCopy d' ["metadata"; "managedFields"] <> Found x)
    /\ (GetKind (snd (dryRunApplyServer o)) <> "Secret" ->
        e' = RemoveNestedField (existing o) ["metadata"; "managedFields"]
        /\ d' = RemoveNestedField (snd (dryRunApplyServer o))
                  ["metadata"; "managedFields"]).
Proof.
  intros Ho.
  destruct (Diff_run kubeGet dryRunApplyServer yamlMarshal cmpDiff h object o Ho) as [-> _].
  unfold diffOutcome.
  destruct (fst (dryRunApplyServer o)) as [err|]; [done|].
  destruct (String.eqb (GetResourceVersion _) ""); [by intros [= <-]|].
  destruct (hasDrifted _ _) as [[|]|]; [|by intros [= <-]|done].
  unfold configured, rendered. rewrite GetKind_managedFields.
  destruct (String.eqb (GetKind _) "Secret") eqn:Hkind.
  - apply String.eqb_eq in Hkind.
    destruct (MaskSecret (RemoveNestedField (snd (dryRunApplyServer o)) _) _)
      as [?|d2] eqn:Hd2; [done|].
    destruct (MaskSecret (RemoveNestedField (existing o) _) _) as [?|e2] eqn:He2; [done|].
    intros [= <-] _. exists e2, d2. split; [done|].
    split; [|split; [|done]]; intros x; rewrite NestedFieldNoCopy_cons.
    + rewrite (MaskSecret_keeps_fields _ _ _ "metadata" ltac:(done) He2).
      rewrite <- NestedFieldNoCopy_cons. apply RemoveNestedField_removes.
    + rewrite (MaskSecret_keeps_fields _ _ _ "metadata" ltac:(done) Hd2).
      rewrite <- NestedFieldNoCopy_cons. apply RemoveNestedField_removes.
  - intros [= <-] _. eexists _, _. split; [done|].
    split; [apply RemoveNestedField_removes|].
    split; [apply RemoveNestedField_removes|done].
Qed.

End Rendering.

(** ** Drift detection *)

(** No drift, and no panic, when the existing object holds everything the
    dry-run result holds, and possibly more fields: the live object with
    its defaults against what the apply would produce. *)
Theorem hasDrifted_false_when_existing_extends (e d : Unstructured) :
  wellFormed (VMap d) = true ->
  GetResourceVersion d <> "" ->
  extends (VMap d) (VMap e) ->
  stringMetadata e ->
  hasDrifted e d = Some false.
Proof.
  intros Hwf Hrv Hext Hmeta.
  apply (hasDrifted_extends d e d); [by apply hasDrifted_refl|done|done|].
  intros k Hk _. exact Hk.
Qed.

(** With a [spec] on the existing object the answer depends on the
    metadata and the [spec] of the two objects only: status, data, webhooks
    and any other field play no part. *)
Theorem hasDrifted_reads_metadata_and_spec (e e' d d' : Unstructured) :
  is_Some (index e "spec") ->
  index e' "spec" = index e "spec" ->
  index e' "metadata" = index e "metadata" ->
  index d' "spec" = index d "spec" ->
  index d' "metadata" = index d "metadata" ->
  hasDrifted e' d' = hasDrifted e d.
Proof.
  intros [es Hes] Hes' Hem Hds Hdm.
  unfold hasDrifted, GetResourceVersion, GetLabels, GetAnnotations,
    getNestedString, nestedStringMapOrNil.
  rewrite !NestedFieldNoCopy_cons, Hes', Hem, Hds, Hdm, Hes. reflexivity.
Qed.

Lemma stringMapLoop_not_panic (m1 m2 : list (string * string)) :
  (forall k, k ∈ keys m1 -> k ∈ keys m2) ->
  DeepDerivativeStringMap m1 m2 <> None.
Proof.
  intros Hsub. unfold DeepDerivativeStringMap.
  destruct (Nat.eqb (length m1) 0); [done|].
  destruct (Nat.ltb (length m2) (length m1)); [done|].
  induction m1 as [|[k s1] m1 IH]; [done|].
  destruct (index m2 k) as [s2|] eqn:Hk.
  - assert (IH' := IH (fun k' Hin => Hsub k' (list_elem_of_further _ _ _ Hin))).
    destruct (Nat.eqb (String.length s1) 0); [exact IH'|].
    destruct (String.eqb s1 s2); [exact IH'|done].
  - apply index_None in Hk. destruct Hk. apply Hsub. by left.
Qed.

(** A changed label is reported: when the existing object has every label
    key of the dry-run result, one label whose value is set on the dry-run
    side and differs on the existing side makes [hasDrifted] answer true. *)
Theorem hasDrifted_detects_changed_label (e d : Unstructured) (k s s' : string) :
  GetResourceVersion d <> "" ->
  (forall k', k' ∈ keys (GetLabels d) -> k' ∈ keys (GetLabels e)) ->
  index (GetLabels d) k = Some s ->
  s <> "" ->
  index (GetLabels e) k = Some s' ->
  s' <> s ->
  hasDrifted e d = Some true.
Proof.
  intros Hrv Hkeys Hd Hs He Hne.
  unfold hasDrifted. apply String.eqb_neq in Hrv. rewrite Hrv.
  destruct (DeepDerivativeStringMap (GetLabels d) (GetLabels e)) as [[|]|] eqn:HD.
  - pose proof (DeepDerivativeStringMap_path _ _ k s HD Hd Hs). congruence.
  - reflexivity.
  - by destruct (stringMapLoop_not_panic _ _ Hkeys).
Qed.

(** A dry-run result with more labels than the existing object is
    reported, whatever the labels are. *)
Theorem hasDrifted_detects_added_label (e d : Unstructured) :
  GetResourceVersion d <> "" ->
  length (GetLabels e) < length (GetLabels d) ->
  hasDrifted e d = Some true.
Proof.
  intros Hrv Hlen.
  unfold hasDrifted. apply String.eqb_neq in Hrv. rewrite Hrv.
  unfold DeepDerivativeStringMap.
  destruct (Nat.eqb (length (GetLabels d)) 0) eqn:H0.
  { apply Nat.eqb_eq in H0. lia. }
  apply Nat.ltb_lt in Hlen. by rewrite Hlen.
Qed.

(** ** Validation errors *)

Lemma prefix_append (s t : string) : String.prefix s (s ++ t) = true.
Proof.
  induction s as [|c s IH]; simpl.
  - by destruct t.
  - destruct (Ascii.ascii_dec c c); [exact IH|done].
Qed.

(** The text of a validation error starts with the identity of the object,
    and the error is a not-found error exactly when the error of the
    dry-run apply is one: a caller can still test it. For a Secret the
    error of the server is wrapped only when it is a not-found error. *)
Theorem validationError_identity_and_reason (object : Unstructured) (err : error) :
  String.prefix (FmtUnstructured object) (Error (validationError object err)) = true
  /\ IsNotFound (validationError object err) = IsNotFound err
  /\ (GetKind object = "Secret" ->
      (exists text, validationError object err = Errorf text (Some err))
      <-> IsNotFound err = true).
Proof.
  unfold validationError.
  destruct (IsNotFound err) eqn:Hnf.
  - split; [apply prefix_append|]. split; [exact Hnf|].
    intros _. split; [done|]. intros _. by eexists.
  - destruct (String.eqb (GetKind object) "Secret") eqn:Hkind.
    + split; [apply prefix_append|]. split; [done|].
      intros _. split; [by intros [? ?]|done].
    + split; [apply prefix_append|]. split; [exact Hnf|].
      intros Hk. rewrite Hk in Hkind. done.
Qed.

(** ** The steps of the apply command *)

Section ApplyCmdSteps.
Variable cluster : Type.
Variable Inventory : Type.
Variable buildManifests : string -> list string -> error + list Unstructured.
Variable Record : list Unstructured -> error + Inventory.
Variable NewResourceManager : option error.
Variable Apply : Unstructured -> bool -> cluster -> (error + ChangeSetEntry) * cluster.
Variable GetStaleObjects :
  Inventory -> string -> string -> cluster -> (error + list Unstructured) * cluster.
Variable Store : Inventory -> string -> string -> cluster -> option error * cluster.
Variable DeleteAll : list Unstructured -> cluster -> (error + list ChangeSetEntry) * cluster.
Variable Wait : list Unstructured -> cluster -> option error * cluster.
Variable WaitForTermination : list Unstructured -> cluster -> option error * cluster.
Variable ChangeString : ChangeSetEntry -> string.

Local Abbreviation call := (call Inventory).
Local Abbreviation run := (run cluster Inventory).
Local Abbreviation Cmd := (Cmd cluster Inventory).
Local Abbreviation adds := (adds cluster Inventory).
Local Abbreviation applyObjects := (applyObjects cluster Inventory Apply ChangeString).
Local Abbreviation runApplyCmd :=
  (runApplyCmd cluster Inventory buildManifests Record NewResourceManager Apply
     GetStaleObjects Store DeleteAll Wait WaitForTermination ChangeString).

Ltac exit_early :=
  intros ? <-; exists []; rewrite app_nil_r; cbn [fst snd fail];
  split; [reflexivity|]; left; split; [reflexivity|]; split; [reflexivity|];
  eexists; reflexivity.

(** The five ways a run ends, with its result. *)
Lemma runApplyCmd_outcome (applyArgs : applyFlags) (r : run) :
  exists new,
    calls _ _ (snd (runApplyCmd applyArgs r)) = (calls _ _ r ++ new)%list
    /\ ((new = [] /\ snd (runApplyCmd applyArgs r) = r
           /\ exists err, fst (runApplyCmd applyArgs r) = inl err)
        \/ (exists objects err applied failed rest,
              buildManifests (kustomize applyArgs) (filename applyArgs) = inr objects
              /\ objects = (applied ++ failed :: rest)%list
              /\ fst (runApplyCmd applyArgs r) = inl err
              /\ new = (map (fun o => CallApply _ o true) applied
                          ++ [CallApply _ failed false])%list)
        \/ (exists objects err,
              buildManifests (kustomize applyArgs) (filename applyArgs) = inr objects
              /\ fst (runApplyCmd applyArgs r) = inl err
              /\ new = (map (fun o => CallApply _ o true) objects
                          ++ [CallGetStaleObjects _ false])%list)
        \/ (exists objects inventory err,
              buildManifests (kustomize applyArgs) (filename applyArgs) = inr objects
              /\ Record objects = inr inventory
              /\ fst (runApplyCmd applyArgs r) = inl err
              /\ new = (map (fun o => CallApply _ o true) objects
                          ++ [CallGetStaleObjects _ true; CallStore _ inventory false])%list)
        \/ (exists objects inventory tail,
              buildManifests (kustomize applyArgs) (filename applyArgs) = inr objects
              /\ Record objects = inr inventory
              /\ new = (map (fun o => CallApply _ o true) objects
                          ++ [CallGetStaleObjects _ true; CallStore _ inventory true]
                          ++ tail)%list
              /\ forallb (allowedAfterStore applyArgs) tail = true)).
Proof.
  remember (runApplyCmd applyArgs r) as out eqn:Hout. symmetry in Hout.
  revert out Hout. unfold kustomizer.runApplyCmd.
  destruct (_ && _); [exit_early|].
  destruct (String.eqb (inventoryName applyArgs) ""); [exit_early|].
  destruct (String.eqb (inventoryNamespace applyArgs) ""); [exit_early|].
  destruct (buildManifests _ _) as [err|objects] eqn:Hbuild;
    [rewrite try_inl, cmd_bind_fail; exit_early|rewrite try_inr, cmd_bind_ret].
  destruct (Record objects) as [err|inventory] eqn:Hrecord;
    [rewrite try_inl, cmd_bind_fail; exit_early|rewrite try_inr, cmd_bind_ret].
  destruct NewResourceManager as [err|];
    [rewrite try_inl, cmd_bind_fail; exit_early|rewrite try_inr, cmd_bind_ret].
  rewrite cmd_bind_run.
  destruct (applyObjects_calls cluster Inventory Apply ChangeString objects
              (force applyArgs) r)
    as [[Hres Hcalls]|(err & applied & failed & rest & Hres & Hobj & Hcalls)].
  2:{ destruct (applyObjects objects (force applyArgs) r) as [res r1] eqn:Hrun; simpl in *.
      subst res. intros out <-. eexists. split; [exact Hcalls|].
      right; left. by exists objects, err, applied, failed, rest. }
  destruct (applyObjects objects (force applyArgs) r) as [res r1] eqn:Hrun; simpl in *.
  subst res.
  rewrite cmd_bind_run. unfold invoke at 1.
  destruct (GetStaleObjects _ _ _ (world _ _ r1)) as [[err|staleObjects] w2]; simpl.
  { intros out <-. eexists. simpl. rewrite Hcalls, <- app_assoc. split; [done|].
    right; right; left. exists objects. by eexists. }
  match goal with
  | |- context [mbind ?k (invoke _ _ (status _ _) (CallStore _ _) _)] =>
      set (tailCmd := k)
  end.
  rewrite cmd_bind_run. unfold invoke at 1, status at 1.
  assert (Htail : adds (allowedAfterStore applyArgs) (tailCmd tt)).
  { subst tailCmd. cbv beta. apply adds_bind.
    - destruct (prune applyArgs && _) eqn:Hprune; [|apply adds_ret].
      apply adds_bind; [by apply adds_invoke|]. intros entries. apply adds_printChanges.
    - intros _. destruct (wait applyArgs) eqn:Hwait; [|apply adds_ret].
      apply adds_bind; [apply adds_Println|]. intros _.
      apply adds_bind; [by apply adds_invoke|]. intros _.
      apply adds_bind; [|intros _; apply adds_Println].
      destruct (prune applyArgs && _) eqn:Hprune; [|apply adds_ret].
      apply adds_invoke. intros ok. simpl. rewrite Hwait.
      apply andb_true_iff in Hprune as [Hp _]. by rewrite Hp. }
  cbn [world calls logged].
  destruct (Store _ _ _ w2) as [[err|] w3]; simpl.
  { intros out <-. eexists. simpl. rewrite Hcalls, <- !app_assoc. split; [done|].
    right; right; right; left. exists objects, inventory. by eexists. }
  match goal with |- context [tailCmd tt ?r'] => destruct (Htail r') as (t & Ht & HP) end.
  intros out <-. simpl in Ht. eexists. rewrite Ht, Hcalls, <- !app_assoc. split; [done|].
  right; right; right; right. by exists objects, inventory, t.
Qed.


Lemma appliedObject_applies (objects : list Unstructured) (ok : bool) :
  omap appliedObject (map (fun o => CallApply Inventory o ok) objects) = objects.
Proof. induction objects as [|o objects IH]; [done|]. simpl. by f_equal. Qed.

Lemma appliedObject_tail (applyArgs : applyFlags) (tail : list call) :
  forallb (allowedAfterStore applyArgs) tail = true -> omap appliedObject tail = [].
Proof.
  induction tail as [|c tail IH]; [done|]. simpl.
  intros [Hc Htail]%andb_true_iff. specialize (IH Htail). by destruct c.
Qed.

Lemma elem_of_applies (objects : list Unstructured) (l : list call) (c : call) :
  c ∈ (map (fun o => CallApply Inventory o true) objects ++ l)%list ->
  (exists o, c = CallApply _ o true) \/ c ∈ l.
Proof.
  intros [(o & -> & _)%list_elem_of_fmap|Hin]%elem_of_app; [left; eauto|by right].
Qed.

(** Flags are checked before anything else: without manifests to read, or
    without the name or the namespace of the inventory, the command returns
    the error of the first missing flag and leaves the run as it was, with
    no call made and no line logged. *)
Theorem runApplyCmd_checks_flags_first (applyArgs : applyFlags) (r : run) :
  (kustomize applyArgs = "" /\ filename applyArgs = [] ->
   runApplyCmd applyArgs r = (inl (Errorf "-f or -k is required" None), r))
  /\ (~ (kustomize applyArgs = "" /\ filename applyArgs = []) ->
      inventoryName applyArgs = "" ->
      runApplyCmd applyArgs r = (inl (Errorf "--inventory-name is required" None), r))
  /\ (~ (kustomize applyArgs = "" /\ filename applyArgs = []) ->
      inventoryName applyArgs <> "" ->
      inventoryNamespace applyArgs = "" ->
      runApplyCmd applyArgs r
      = (inl (Errorf "--inventory-namespace is required" None), r)).
Proof.
  unfold kustomizer.runApplyCmd.
  assert (Hsrc : String.eqb (kustomize applyArgs) ""
                 && Nat.eqb (length (filename applyArgs)) 0 = true
                 <-> kustomize applyArgs = "" /\ filename applyArgs = []).
  { rewrite andb_true_iff, String.eqb_eq, Nat.eqb_eq. by rewrite length_zero_iff_nil. }
  split; [|split].
  - intros H. apply Hsrc in H. by rewrite H.
  - intros H Hname. destruct (_ && _); [by destruct H; apply Hsrc|].
    by rewrite Hname.
  - intros H Hname Hns. destruct (_ && _); [by destruct H; apply Hsrc|].
    apply String.eqb_neq in Hname. by rewrite Hname, Hns.
Qed.

(** The objects are applied in the order of the manifests, each one at
    most once, and none after the first failure: the objects of the [Apply]
    calls of a run, in the order of the calls, are a prefix of the objects
    built from the manifests; and when an [Apply] fails, the calls of the
    run are the successful [Apply] calls of the objects before the one that
    failed, then the failing call, and nothing after it: the command
    returns an error. *)
Theorem runApplyCmd_applies_in_order (applyArgs : applyFlags) (r : run)
    (objects : list Unstructured) (new : list call) :
  buildManifests (kustomize applyArgs) (filename applyArgs) = inr objects ->
  calls _ _ (snd (runApplyCmd applyArgs r)) = (calls _ _ r ++ new)%list ->
  omap appliedObject new `prefix_of` objects
  /\ forall failed,
       CallApply _ failed false ∈ new ->
       exists applied rest err,
         objects = (applied ++ failed :: rest)%list
         /\ new = (map (fun o => CallApply _ o true) applied
                     ++ [CallApply _ failed false])%list
         /\ fst (runApplyCmd applyArgs r) = inl err.
Proof.
  intros Hbuild Hnew.
  destruct (runApplyCmd_outcome applyArgs r) as (new' & Hcalls & Hshape).
  rewrite Hcalls in Hnew. apply app_inv_head in Hnew as <-.
  assert (Hmap : forall objects failed,
            CallApply Inventory failed false
            ∉ map (fun o => CallApply Inventory o true) objects).
  { intros os failed (o & Heq & _)%list_elem_of_fmap. discriminate. }
  destruct Hshape as [(-> & _)
                     |[(objects' & err & applied & failed' & rest & Hb & Hobj & Herr & ->)
                     |[(objects' & err & Hb & _ & ->)
                     |[(objects' & inventory & err & Hb & _ & _ & ->)
                     |(objects' & inventory & tail & Hb & _ & -> & Htail)]]]];
    try (rewrite Hbuild in Hb; injection Hb as <-).
  - split; [apply prefix_nil|]. intros failed Hin. by apply elem_of_nil in Hin.
  - split.
    + rewrite omap_app, appliedObject_applies, Hobj. simpl.
      exists rest. by rewrite <- app_assoc.
    + intros failed [Hin|Hin]%elem_of_app; [by destruct (Hmap _ _ Hin)|].
      apply list_elem_of_singleton in Hin. injection Hin as ->.
      exists applied, rest, err. done.
  - split.
    + rewrite omap_app, appliedObject_applies. simpl. by rewrite app_nil_r.
    + intros failed [Hin|Hin]%elem_of_app; [by destruct (Hmap _ _ Hin)|].
      by apply list_elem_of_singleton in Hin.
  - split.
    + rewrite omap_app, appliedObject_applies. simpl. by rewrite app_nil_r.
    + intros failed [Hin|Hin]%elem_of_app; [by destruct (Hmap _ _ Hin)|].
      apply elem_of_cons in Hin as [?|Hin]; [done|].
      by apply list_elem_of_singleton in Hin.
  - split.
    + rewrite !omap_app, appliedObject_applies.
      rewrite (appliedObject_tail applyArgs tail Htail). simpl. by rewrite app_nil_r.
    + intros failed [Hin|Hin]%elem_of_app; [by destruct (Hmap _ _ Hin)|].
      apply elem_of_app in Hin as [Hin|Hin].
      * apply elem_of_cons in Hin as [?|Hin]; [done|].
        by apply list_elem_of_singleton in Hin.
      * exfalso. apply list_elem_of_In in Hin.
        rewrite forallb_forall in Htail. by specialize (Htail _ Hin).
Qed.

(** Stale objects are deleted only with [--prune], only when there are
    some, and only after the new inventory has been stored with success;
    the command waits only with [--wait], and for the termination of stale
    objects only with both flags; none of these calls comes before a
    successful [Store]. *)
Theorem runApplyCmd_prunes_and_waits_by_flags (applyArgs : applyFlags) (r : run)
    (new : list call) :
  calls _ _ (snd (runApplyCmd applyArgs r)) = (calls _ _ r ++ new)%list ->
  (forall objects ok,
     CallDeleteAll _ objects ok ∈ new ->
     prune applyArgs = true /\ objects <> []
     /\ exists inventory, CallStore _ inventory true ∈ new)
  /\ (forall ok,
        CallWait _ ok ∈ new ->
        wait applyArgs = true /\ exists inventory, CallStore _ inventory true ∈ new)
  /\ (forall ok,
        CallWaitForTermination _ ok ∈ new ->
        wait applyArgs = true /\ prune applyArgs = true
        /\ exists inventory, CallStore _ inventory true ∈ new).
Proof.
  intros Hnew.
  destruct (runApplyCmd_outcome applyArgs r) as (new' & Hcalls & Hshape).
  rewrite Hcalls in Hnew. apply app_inv_head in Hnew as ->.
  assert (Hafter : forall c,
            c ∈ new -> (forall o ok, c <> CallApply _ o ok) ->
            (forall ok, c <> CallGetStaleObjects _ ok) ->
            (forall inv ok, c <> CallStore _ inv ok) ->
            allowedAfterStore applyArgs c = true
            /\ exists inventory, CallStore Inventory inventory true ∈ new).
  { intros c Hin Hna Hng Hns.
    destruct Hshape as [(-> & _)
                       |[(objects' & err & applied & failed & rest & _ & _ & _ & ->)
                       |[(objects' & err & _ & _ & ->)
                       |[(objects' & inventory & err & _ & _ & _ & ->)
                       |(objects' & inventory & tail & _ & _ & -> & Htail)]]]].
    - by apply elem_of_nil in Hin.
    - apply elem_of_applies in Hin as [[o ->]|Hin]; [by destruct (Hna o true)|].
      apply list_elem_of_singleton in Hin as ->. by destruct (Hna failed false).
    - apply elem_of_applies in Hin as [[o ->]|Hin]; [by destruct (Hna o true)|].
      apply list_elem_of_singleton in Hin as ->. by destruct (Hng false).
    - apply elem_of_applies in Hin as [[o ->]|Hin]; [by destruct (Hna o true)|].
      apply elem_of_cons in Hin as [->|Hin]; [by destruct (Hng true)|].
      apply list_elem_of_singleton in Hin as ->. by destruct (Hns inventory false).
    - apply elem_of_applies in Hin as [[o ->]|Hin]; [by destruct (Hna o true)|].
      apply elem_of_cons in Hin as [->|Hin]; [by destruct (Hng true)|].
      apply elem_of_cons in Hin as [->|Hin]; [by destruct (Hns inventory true)|].
      split.
      + rewrite forallb_forall in Htail. apply Htail. by apply list_elem_of_In.
      + exists inventory. apply elem_of_app. right. right. by left. }
  split; [|split].
  - intros objects ok Hin.
    destruct (Hafter _ Hin) as [Hallowed Hstore]; try done.
    simpl in Hallowed. apply andb_true_iff in Hallowed as [Hp Hlen].
    split; [done|]. split; [|done]. intros ->. done.
  - intros ok Hin. destruct (Hafter _ Hin) as [Hallowed Hstore]; done.
  - intros ok Hin. destruct (Hafter _ Hin) as [Hallowed Hstore]; try done.
    simpl in Hallowed. by apply andb_true_iff in Hallowed as [Hw Hp].
Qed.

(** A command that returns no error has applied every object of the
    manifests with success, in their order, then queried the stale objects
    and stored the inventory recorded from exactly those objects. *)
Theorem runApplyCmd_success (applyArgs : applyFlags) (r : run) (new : list call) :
  fst (runApplyCmd applyArgs r) = inr tt ->
  calls _ _ (snd (runApplyCmd applyArgs r)) = (calls _ _ r ++ new)%list ->
  exists objects inventory tail,
    buildManifests (kustomize applyArgs) (filename applyArgs) = inr objects
    /\ Record objects = inr inventory
    /\ new = (map (fun o => CallApply _ o true) objects
                ++ [CallGetStaleObjects _ true; CallStore _ inventory true]
                ++ tail)%list
    /\ forallb (allowedAfterStore applyArgs) tail = true.
Proof.
  intros Hok Hnew.
  destruct (runApplyCmd_outcome applyArgs r) as (new' & Hcalls & Hshape).
  rewrite Hcalls in Hnew. apply app_inv_head in Hnew as <-.
  destruct Hshape as [(_ & _ & err & Herr)
                     |[(objects & err & applied & failed & rest & _ & _ & Herr & _)
                     |[(objects & err & _ & Herr & _)
                     |[(objects & inventory & err & _ & _ & Herr & _)
                     |(objects & inventory & tail & Hb & Hr & -> & Htail)]]]];
    try congruence.
  by exists objects, inventory, tail.
Qed.

End ApplyCmdSteps.

(** ** The push artifact command *)

Section PushCmdProperties.
Import push.
Variable registry : Type.
Variable ParseURL : string -> error + string.
Variable buildManifests :
  string -> list string -> list string -> error + list Unstructured.
Variable sortObjects : list Unstructured -> list Unstructured.
Variable FmtUnstructured : Unstructured -> string.
Variable ObjectsToYAML : list Unstructured -> error + string.
Variable Push : string -> string -> Metadata -> registry -> (error + string) * registry.
Variable sha256hex : string -> string.
Variable VERSION : string.
Variable now : string.

Local Abbreviation run := (push.run registry).
Local Abbreviation Cmd := (push.Cmd registry).
Local Abbreviation runPushArtifactCmd :=
  (push.runPushArtifactCmd registry ParseURL buildManifests sortObjects FmtUnstructured
     ObjectsToYAML Push sha256hex VERSION now).

Lemma push_bind_run {A B} (m : Cmd A) (k : A -> Cmd B) (r : run) :
  (m ≫= k) r
  = match m r with
    | (inr a, r') => k a r'
    | (inl err, r') => (inl err, r')
    end.
Proof. reflexivity. Qed.

Lemma printObjects_run (objects : list Unstructured) (r : run) :
  printObjects registry FmtUnstructured objects r
  = (inr tt, {| remote := remote _ r; pushes := pushes _ r; logged := logged _ r;
                printed := (printed _ r ++ map FmtUnstructured objects)%list |}).
Proof.
  revert r. induction objects as [|o objects IH]; intros r; simpl.
  - rewrite app_nil_r. by destruct r.
  - rewrite push_bind_run. simpl. rewrite IH. simpl. by rewrite <- app_assoc.
Qed.

(** Arguments are checked before anything else: without an artifact name,
    or without manifests to read, the command returns the error of the
    check and leaves the run as it was: nothing logged, printed or
    pushed. *)
Theorem runPushArtifactCmd_checks_arguments_first
    (pushArtifactArgs : pushArtifactFlags) (args : list string) (r : run) :
  (args = [] ->
   runPushArtifactCmd pushArtifactArgs args r
   = (inl (Errorf "you must specify an artifact name e.g. 'oci://docker.io/user/repo:tag'"
             None), r))
  /\ (args <> [] ->
      kustomize pushArtifactArgs = "" -> filename pushArtifactArgs = [] ->
      runPushArtifactCmd pushArtifactArgs args r
      = (inl (Errorf "-f or -k is required" None), r)).
Proof.
  split.
  - by intros ->.
  - intros Hargs Hk Hf. destruct args as [|arg0 rest]; [done|].
    unfold push.runPushArtifactCmd. by rewrite Hk, Hf.
Qed.

Lemma push_bind_try {A B} (a : A) (k : A -> Cmd B) (r : run) :
  (push.try registry (inr a) ≫= k) r = k a r.
Proof. reflexivity. Qed.

Lemma push_bind_log {B} (line : string) (k : unit -> Cmd B) (r : run) :
  (logPrintln registry line ≫= k) r
  = k tt {| remote := remote _ r; pushes := pushes _ r;
            logged := (logged _ r ++ [line])%list; printed := printed _ r |}.
Proof. reflexivity. Qed.

(** The command step by step, once its arguments are accepted. *)
Lemma runPushArtifactCmd_steps
    (pushArtifactArgs : pushArtifactFlags) (arg0 : string) (rest : list string) (r : run) :
  String.eqb (kustomize pushArtifactArgs) ""
  && Nat.eqb (length (filename pushArtifactArgs)) 0 = false ->
  runPushArtifactCmd pushArtifactArgs (arg0 :: rest) r
  = match ParseURL arg0 with
    | inl err => (inl err, r)
    | inr url =>
        let r1 := {| remote := remote _ r; pushes := pushes _ r;
                     logged := (logged _ r ++ ["building manifests..."])%list;
                     printed := printed _ r |} in
        match buildManifests (kustomize pushArtifactArgs) (filename pushArtifactArgs)
                (patch pushArtifactArgs) with
        | inl err => (inl err, r1)
        | inr objects =>
            let r2 := {| remote := remote _ r; pushes := pushes _ r;
                         logged := logged _ r1;
                         printed := (printed _ r
                                     ++ map FmtUnstructured (sortObjects objects))%list |} in
            match ObjectsToYAML (sortObjects objects) with
            | inl err => (inl err, r2)
            | inr yml =>
                let meta := {| Version := VERSION; Checksum := sha256hex yml;
                               Created := now |} in
                match Push url yml meta (remote _ r) with
                | (inl err, reg) =>
                    (inl (Errorf ("pushing image failed: " ++ Error err) (Some err)),
                     {| remote := reg;
                        pushes := (pushes _ r ++ [CallPush url yml meta false])%list;
                        logged := (logged _ r1 ++ [("pushing image " ++ url)%string])%list;
                        printed := printed _ r2 |})
                | (inr digest, reg) =>
                    (inr tt,
                     {| remote := reg;
                        pushes := (pushes _ r ++ [CallPush url yml meta true])%list;
                        logged := (logged _ r1 ++ [("pushing image " ++ url)%string]
                                   ++ [("published digest " ++ digest)%string])%list;
                        printed := printed _ r2 |})
                end
            end
        end
    end.
Proof.
  intros Hcheck. unfold push.runPushArtifactCmd. rewrite Hcheck.
  destruct (ParseURL arg0) as [err|url]; [reflexivity|].
  rewrite push_bind_try, push_bind_log.
  destruct (buildManifests _ _ _) as [err|objects]; [reflexivity|].
  rewrite push_bind_try. cbv zeta.
  rewrite push_bind_run, printObjects_run. cbv iota beta.
  destruct (ObjectsToYAML (sortObjects objects)) as [err|yml]; [reflexivity|].
  rewrite push_bind_try, push_bind_log.
  rewrite push_bind_run. unfold push.push. cbn [remote pushes logged printed].
  destruct (Push url yml _ (remote _ r)) as [[err|digest] reg]; [reflexivity|].
  unfold logPrintln. cbn [remote pushes logged printed]. by rewrite <- app_assoc.
Qed.

Lemma push_flags_check (pushArtifactArgs : pushArtifactFlags) :
  String.eqb (kustomize pushArtifactArgs) ""
  && Nat.eqb (length (filename pushArtifactArgs)) 0 = true
  <-> kustomize pushArtifactArgs = "" /\ filename pushArtifactArgs = [].
Proof.
  rewrite andb_true_iff, String.eqb_eq, Nat.eqb_eq. by rewrite length_zero_iff_nil.
Qed.

(** At most one push is made, and it is made of what was built: the URL
    parsed from the first argument, the YAML of the sorted objects of the
    manifests, and a checksum that is the digest of exactly that YAML; the
    command returns no error exactly when that push succeeded. *)
Theorem runPushArtifactCmd_pushes_what_it_built
    (pushArtifactArgs : pushArtifactFlags) (args : list string) (r : run) :
  exists new,
    pushes _ (snd (runPushArtifactCmd pushArtifactArgs args r))
    = (pushes _ r ++ new)%list
    /\ ((new = [] /\ exists err, fst (runPushArtifactCmd pushArtifactArgs args r) = inl err)
        \/ exists arg0 rest url objects yml ok,
             args = arg0 :: rest
             /\ ParseURL arg0 = inr url
             /\ buildManifests (kustomize pushArtifactArgs) (filename pushArtifactArgs)
                  (patch pushArtifactArgs) = inr objects
             /\ ObjectsToYAML (sortObjects objects) = inr yml
             /\ new = [CallPush url yml
                         {| Version := VERSION; Checksum := sha256hex yml; Created := now |}
                         ok]
             /\ (ok = true <-> fst (runPushArtifactCmd pushArtifactArgs args r) = inr tt)).
Proof.
  destruct args as [|arg0 rest].
  { exists []. rewrite app_nil_r. split; [done|]. left. split; [done|]. by eexists. }
  destruct (String.eqb (kustomize pushArtifactArgs) ""
            && Nat.eqb (length (filename pushArtifactArgs)) 0) eqn:Hcheck.
  { unfold push.runPushArtifactCmd. rewrite Hcheck.
    exists []. rewrite app_nil_r. split; [done|]. left. split; [done|]. by eexists. }
  rewrite (runPushArtifactCmd_steps _ _ _ _ Hcheck).
  destruct (ParseURL arg0) as [err|url] eqn:Hurl.
  { exists []. rewrite app_nil_r. split; [done|]. left. split; [done|]. by eexists. }
  destruct (buildManifests _ _ _) as [err|objects] eqn:Hbuild.
  { exists []. rewrite app_nil_r. split; [done|]. left. split; [done|]. by eexists. }
  destruct (ObjectsToYAML (sortObjects objects)) as [err|yml] eqn:Hyaml.
  { exists []. rewrite app_nil_r. split; [done|]. left. split; [done|]. by eexists. }
  cbv zeta.
  destruct (Push url yml _ (remote _ r)) as [[err|digest] reg].
  - eexists. split; [done|]. right.
    exists arg0, rest, url, objects, yml, false. by repeat split.
  - eexists. split; [done|]. right.
    exists arg0, rest, url, objects, yml, true. by repeat split.
Qed.

(** Once the manifests are built the command prints one line per object,
    in sorted order, whether the conversion to YAML and the push succeed
    afterwards or not; when the manifests cannot be built nothing is
    printed. *)
Theorem runPushArtifactCmd_prints_sorted_objects
    (pushArtifactArgs : pushArtifactFlags) (arg0 : string) (rest : list string)
    (url : string) (r : run) :
  ~ (kustomize pushArtifactArgs = "" /\ filename pushArtifactArgs = []) ->
  ParseURL arg0 = inr url ->
  printed _ (snd (runPushArtifactCmd pushArtifactArgs (arg0 :: rest) r))
  = match buildManifests (kustomize pushArtifactArgs) (filename pushArtifactArgs)
            (patch pushArtifactArgs) with
    | inr objects => (printed _ r ++ map FmtUnstructured (sortObjects objects))%list
    | inl _ => printed _ r
    end.
Proof.
  intros Hflags Hurl.
  rewrite runPushArtifactCmd_steps, Hurl.
  - destruct (buildManifests _ _ _) as [err|objects]; [done|]. cbv zeta.
    destruct (ObjectsToYAML (sortObjects objects)) as [err|yml]; [done|].
    by destruct (Push url yml _ (remote _ r)) as [[err|digest] reg].
  - apply not_true_iff_false. intros H. by apply Hflags, push_flags_check.
Qed.

End PushCmdProperties.

(** * Further examples *)

(** A ConfigMap whose value changed: a Configured entry. *)
Lemma Diff_entry_classification_witness :
  heapWith (managed "" "b") !! 1%positive = Some (managed "" "b")
  /\ fst (Diff (getLive (managed "7" "a")) (serverAnswers (managed "8" "b")) yamlOf diffOf
            1%positive (heapWith (managed "" "b")))
     = Some (inr {| Subject := "ConfigMap//cfg1"; EntryAction := ConfiguredAction;
                    Diff_text := "ConfigMap//cfg1:a => ConfigMap//cfg1:b" |})
  /\ fst (serverAnswers (managed "8" "b") (managed "" "b")) = None.
Proof.
  split; [reflexivity|]. split; [vm_compute; reflexivity|].
  exact (proj1 (Diff_entry_classification
                  (getLive (managed "7" "a")) (serverAnswers (managed "8" "b"))
                  yamlOf diffOf (heapWith (managed "" "b")) 1%positive (managed "" "b")
                  {| Subject := "ConfigMap//cfg1"; EntryAction := ConfiguredAction;
                     Diff_text := "ConfigMap//cfg1:a => ConfigMap//cfg1:b" |}
                  eq_refl eq_refl)).
Defined.

(** A rejected ConfigMap: the validation error, although [Get] failed
    too. *)
Lemma Diff_error_results_witness :
  heapWith (managed "" "b") !! 1%positive = Some (managed "" "b")
  /\ fst (Diff (getFails (StatusError false "forbidden"))
            (serverRejects (StatusError false "bad value")) yamlOf diffOf
            1%positive (heapWith (managed "" "b")))
     = Some (inl (validationError (managed "" "b") (StatusError false "bad value"))).
Proof.
  split; [reflexivity|].
  exact (proj1 (Diff_error_results
                  (getFails (StatusError false "forbidden"))
                  (serverRejects (StatusError false "bad value"))
                  yamlOf diffOf (heapWith (managed "" "b")) 1%positive (managed "" "b")
                  eq_refl)
           (StatusError false "bad value") eq_refl).
Defined.

(** The [spec] of the live object is null and the dry-run result has one:
    the comparison of the two panics, and so does [Diff]. *)
Lemma Diff_panics_on_null_body_witness :
  heapWith (deployment "" "nginx" "a") !! 1%positive = Some (deployment "" "nginx" "a")
  /\ fst (Diff (getLive (deploymentNullSpec "7"))
            (serverAnswers (deployment "8" "nginx" "a")) yamlOf diffOf
            1%positive (heapWith (deployment "" "nginx" "a"))) = None.
Proof.
  split; [reflexivity|].
  apply (Diff_panics_on_null_body
           (getLive (deploymentNullSpec "7"))
           (serverAnswers (deployment "8" "nginx" "a")) yamlOf diffOf
           (heapWith (deployment "" "nginx" "a")) 1%positive (deployment "" "nginx" "a")
           eq_refl).
  split; [reflexivity|]. split; [vm_compute; discriminate|].
  split; [reflexivity|]. split; [reflexivity|]. split; [reflexivity|].
  vm_compute; discriminate.
Defined.

Lemma Diff_twice_witness :
  heapWith (managed "" "b") !! 1%positive = Some (managed "" "b")
  /\ fst (Diff (getLive (managed "7" "a")) (serverAnswers (managed "8" "b")) yamlOf diffOf
            1%positive
            (snd (Diff (getLive (managed "7" "a")) (serverAnswers (managed "8" "b"))
                    yamlOf diffOf 1%positive (heapWith (managed "" "b")))))
     = fst (Diff (getLive (managed "7" "a")) (serverAnswers (managed "8" "b")) yamlOf diffOf
              1%positive (heapWith (managed "" "b"))).
Proof.
  split; [reflexivity|].
  exact (Diff_twice (getLive (managed "7" "a")) (serverAnswers (managed "8" "b"))
           yamlOf diffOf (heapWith (managed "" "b")) 1%positive (managed "" "b") eq_refl).
Defined.

(** Both objects carry [managedFields]; the rendered ones do not. *)
Lemma Diff_renders_witness :
  heapWith (managed "" "b") !! 1%positive = Some (managed "" "b")
  /\ (exists x, NestedFieldNoCopy (managed "8" "b") ["metadata"; "managedFields"] = Found x)
  /\ exists e' d',
       "ConfigMap//cfg1:a => ConfigMap//cfg1:b" = diffOf (yamlOf e') (yamlOf d')
       /\ (forall x, NestedFieldNoCopy e' ["metadata"; "managedFields"] <> Found x)
       /\ (forall x, NestedFieldNoCopy d' ["metadata"; "managedFields"] <> Found x).
Proof.
  split; [reflexivity|]. split; [eexists; reflexivity|].
  destruct (Diff_renders_without_managedFields
              (getLive (managed "7" "a")) (serverAnswers (managed "8" "b"))
              yamlOf diffOf (heapWith (managed "" "b")) 1%positive (managed "" "b")
              {| Subject := "ConfigMap//cfg1"; EntryAction := ConfiguredAction;
                 Diff_text := "ConfigMap//cfg1:a => ConfigMap//cfg1:b" |}
              eq_refl eq_refl eq_refl) as (e' & d' & Htext & He & Hd & _).
  exists e', d'. split; [exact Htext|]. split; [exact He|exact Hd].
Defined.

(** The live Deployment has a status that the dry-run result lacks. *)
Lemma hasDrifted_extends_witness :
  wellFormed (VMap (deployment "7" "nginx" "a")) = true
  /\ GetResourceVersion (deployment "7" "nginx" "a") <> ""
  /\ extends (VMap (deployment "7" "nginx" "a")) (VMap deploymentLive)
  /\ stringMetadata deploymentLive
  /\ hasDrifted deploymentLive (deployment "7" "nginx" "a") = Some false.
Proof.
  assert (Hrv : GetResourceVersion (deployment "7" "nginx" "a") <> "")
    by (vm_compute; discriminate).
  assert (Hext : extends (VMap (deployment "7" "nginx" "a")) (VMap deploymentLive)).
  { assert (Hnd : forall m : list (string * value),
              bool_decide (NoDup (keys m)) = true -> NoDup (keys m)).
    { intros m. apply bool_decide_eq_true_1. }
    apply extends_map.
    - by apply Hnd.
    - by apply Hnd.
    - intros k x Hin. exists x. split; [|apply extends_refl].
      unfold deployment, deploymentLive in *.
      repeat (apply elem_of_cons in Hin as [->|Hin];
              [repeat first [apply list_elem_of_here|apply list_elem_of_further]|]).
      by apply elem_of_nil in Hin. }
  assert (Hmeta : stringMetadata deploymentLive).
  { intros name m. unfold deploymentLive, NestedFieldNoCopy. simpl.
    destruct (String.eqb name "name"); [discriminate|].
    destruct (String.eqb name "resourceVersion"); discriminate. }
  split; [reflexivity|]. split; [exact Hrv|]. split; [exact Hext|]. split; [exact Hmeta|].
  exact (hasDrifted_false_when_existing_extends deploymentLive (deployment "7" "nginx" "a")
           eq_refl Hrv Hext Hmeta).
Defined.

(** Two Deployments that differ by a field outside metadata and spec. *)
Lemma hasDrifted_reads_witness :
  is_Some (index (deployment "7" "nginx" "a") "spec")
  /\ hasDrifted (deployment "7" "nginx" "x") (deployment "7" "apache" "y")
     = hasDrifted (deployment "7" "nginx" "a") (deployment "7" "apache" "b").
Proof.
  assert (H : is_Some (index (deployment "7" "nginx" "a") "spec")) by (by eexists).
  split; [exact H|].
  exact (hasDrifted_reads_metadata_and_spec
           (deployment "7" "nginx" "a") (deployment "7" "nginx" "x")
           (deployment "7" "apache" "b") (deployment "7" "apache" "y")
           H eq_refl eq_refl eq_refl eq_refl).
Defined.

Lemma hasDrifted_changed_label_witness :
  GetResourceVersion (configMap "7" [("app", VString "api"); ("tier", VString "front")] "a")
  <> ""
  /\ index (GetLabels (configMap "7" [("app", VString "api"); ("tier", VString "front")] "a"))
       "app" = Some "api"
  /\ index (GetLabels (configMap "7" labelsAB "a")) "app" = Some "web"
  /\ hasDrifted (configMap "7" labelsAB "a")
       (configMap "7" [("app", VString "api"); ("tier", VString "front")] "a") = Some true.
Proof.
  assert (Hrv : GetResourceVersion
                  (configMap "7" [("app", VString "api"); ("tier", VString "front")] "a")
                <> "") by (vm_compute; discriminate).
  split; [exact Hrv|]. split; [reflexivity|]. split; [reflexivity|].
  apply (hasDrifted_detects_changed_label (configMap "7" labelsAB "a")
           (configMap "7" [("app", VString "api"); ("tier", VString "front")] "a")
           "app" "api" "web" Hrv);
    [intros k' Hin; exact Hin|reflexivity|discriminate|reflexivity|discriminate].
Defined.

Lemma hasDrifted_added_label_witness :
  GetResourceVersion (configMap "7" labelsAB "a") <> ""
  /\ length (GetLabels (configMap "7" [("app", VString "web")] "a"))
     < length (GetLabels (configMap "7" labelsAB "a"))
  /\ hasDrifted (configMap "7" [("app", VString "web")] "a") (configMap "7" labelsAB "a")
     = Some true.
Proof.
  assert (Hrv : GetResourceVersion (configMap "7" labelsAB "a") <> "")
    by (vm_compute; discriminate).
  assert (Hlen : length (GetLabels (configMap "7" [("app", VString "web")] "a"))
                 < length (GetLabels (configMap "7" labelsAB "a")))
    by (vm_compute; lia).
  split; [exact Hrv|]. split; [exact Hlen|].
  exact (hasDrifted_detects_added_label (configMap "7" [("app", VString "web")] "a")
           (configMap "7" labelsAB "a") Hrv Hlen).
Defined.

(** The apply command without [-f] and [-k]. *)
Lemma runApplyCmd_checks_flags_witness :
  runApplyCmd (list string) (list string)
    (fun _ _ => inr [named "a"]) (fun objects => inr (namesOf objects)) None applyOrFail
    (fun _ _ _ w => (inr [], w)) (fun inventory _ _ _ => (None, inventory))
    (fun _ w => (inr [], w)) (fun _ w => (None, w)) (fun _ w => (None, w)) Subject
    {| filename := []; kustomize := ""; inventoryName := "inv";
       inventoryNamespace := "default"; wait := false; force := false; prune := false |}
    emptyRun
  = (inl (Errorf "-f or -k is required" None), emptyRun).
Proof.
  exact (proj1 (runApplyCmd_checks_flags_first (list string) (list string)
                  (fun _ _ => inr [named "a"]) (fun objects => inr (namesOf objects))
                  None applyOrFail
                  (fun _ _ _ w => (inr [], w)) (fun inventory _ _ _ => (None, inventory))
                  (fun _ w => (inr [], w)) (fun _ w => (None, w)) (fun _ w => (None, w))
                  Subject
                  {| filename := []; kustomize := ""; inventoryName := "inv";
                     inventoryNamespace := "default"; wait := false; force := false;
                     prune := false |}
                  emptyRun)
           (conj eq_refl eq_refl)).
Defined.

(** The second of three objects fails: the third is not applied, and the
    failing call is the last of the run. *)
Lemma runApplyCmd_applies_in_order_witness :
  calls _ _ (snd (runWith [named "a"; named "bad"; named "c"]))
  = [ CallApply _ (named "a") true; CallApply _ (named "bad") false ]
  /\ [named "a"; named "bad"] `prefix_of` [named "a"; named "bad"; named "c"]
  /\ exists applied rest err,
       [named "a"; named "bad"; named "c"] = (applied ++ named "bad" :: rest)%list
       /\ [ CallApply (list string) (named "a") true; CallApply _ (named "bad") false ]
          = (map (fun o => CallApply _ o true) applied
               ++ [CallApply _ (named "bad") false])%list
       /\ fst (runWith [named "a"; named "bad"; named "c"]) = inl err.
Proof.
  split; [reflexivity|].
  destruct (runApplyCmd_applies_in_order (list string) (list string)
              (fun _ _ => inr [named "a"; named "bad"; named "c"])
              (fun objects => inr (namesOf objects)) None applyOrFail
              (fun _ _ _ w => (inr [], w)) (fun inventory _ _ _ => (None, inventory))
              (fun _ w => (inr [], w)) (fun _ w => (None, w)) (fun _ w => (None, w)) Subject
              flags emptyRun [named "a"; named "bad"; named "c"]
              [ CallApply _ (named "a") true; CallApply _ (named "bad") false ]
              eq_refl eq_refl) as [Hprefix Hlast].
  split; [exact Hprefix|].
  apply Hlast. apply list_elem_of_further, list_elem_of_here.
Defined.

(** With [--prune] and [--wait] and a stale object: the deletion and the
    waits come after the store. *)
Lemma runApplyCmd_prunes_and_waits_witness :
  calls _ _ (snd (runPruneWait [named "a"]))
  = [ CallApply _ (named "a") true; CallGetStaleObjects _ true; CallStore _ ["a"] true;
      CallDeleteAll _ [named "old"] true; CallWait _ true; CallWaitForTermination _ true ]
  /\ prune flagsPruneWait = true
  /\ exists inventory : list string,
       CallStore _ inventory true
       ∈ [ CallApply (list string) (named "a") true; CallGetStaleObjects _ true;
           CallStore _ ["a"] true; CallDeleteAll _ [named "old"] true; CallWait _ true;
           CallWaitForTermination _ true ].
Proof.
  split; [reflexivity|].
  destruct (proj1 (runApplyCmd_prunes_and_waits_by_flags (list string) (list string)
                     (fun _ _ => inr [named "a"])
                     (fun objects => inr (namesOf objects)) None applyOrFail
                     (fun _ _ _ w => (inr [named "old"], w))
                     (fun inventory _ _ _ => (None, inventory))
                     (fun _ w => (inr [], w)) (fun _ w => (None, w)) (fun _ w => (None, w))
                     Subject flagsPruneWait emptyRun
                     [ CallApply _ (named "a") true; CallGetStaleObjects _ true;
                       CallStore _ ["a"] true; CallDeleteAll _ [named "old"] true;
                       CallWait _ true; CallWaitForTermination _ true ]
                     eq_refl)
              [named "old"] true) as (Hprune & _ & Hstore).
  { do 3 apply list_elem_of_further. apply list_elem_of_here. }
  split; [exact Hprune|exact Hstore].
Defined.

(** A run without error. *)
Lemma runApplyCmd_success_witness :
  fst (runWith [named "a"; named "c"]) = inr tt
  /\ exists objects inventory tail,
       namesOf objects = inventory
       /\ [ CallApply (list string) (named "a") true; CallApply _ (named "c") true;
            CallGetStaleObjects _ true; CallStore _ ["a"; "c"] true ]
          = (map (fun o => CallApply _ o true) objects
               ++ [CallGetStaleObjects _ true; CallStore _ inventory true] ++ tail)%list.
Proof.
  split; [reflexivity|].
  destruct (runApplyCmd_success (list string) (list string)
              (fun _ _ => inr [named "a"; named "c"])
              (fun objects => inr (namesOf objects)) None applyOrFail
              (fun _ _ _ w => (inr [], w)) (fun inventory _ _ _ => (None, inventory))
              (fun _ w => (inr [], w)) (fun _ w => (None, w)) (fun _ w => (None, w))
              Subject flags emptyRun
              [ CallApply _ (named "a") true; CallApply _ (named "c") true;
                CallGetStaleObjects _ true; CallStore _ ["a"; "c"] true ]
              eq_refl eq_refl) as (objects & inventory & tail & _ & Hrec & Hnew & _).
  exists objects, inventory, tail. split; [by injection Hrec|exact Hnew].
Defined.

(** The push command without an artifact name. *)
Lemma runPushArtifactCmd_checks_arguments_witness :
  runPush []
  = (inl (Errorf "you must specify an artifact name e.g. 'oci://docker.io/user/repo:tag'"
            None), emptyPushRun).
Proof.
  exact (proj1 (runPushArtifactCmd_checks_arguments_first nat
                  (fun s => inr s) (fun _ _ _ => inr [named "b"; named "a"])
                  (@rev Unstructured) GetName
                  (fun objects => inr (String.concat "," (map GetName objects)))
                  (fun _ _ _ n => (inr "sha256:0a", S n)) (fun yml => "digest of " ++ yml)
                  "v1" "2021-10-01T00:00:00Z" pushFlags [] emptyPushRun)
           eq_refl).
Defined.

(** Two objects built in the order b, a are printed in the order a, b. *)
Lemma runPushArtifactCmd_prints_witness :
  ~ (push.kustomize pushFlags = "" /\ push.filename pushFlags = [])
  /\ push.printed _ (snd (runPush ["oci://registry/repo:v1"])) = ["a"; "b"].
Proof.
  assert (Hflags : ~ (push.kustomize pushFlags = "" /\ push.filename pushFlags = []))
    by (intros [_ H]; discriminate).
  split; [exact Hflags|].
  exact (runPushArtifactCmd_prints_sorted_objects nat
           (fun s => inr s) (fun _ _ _ => inr [named "b"; named "a"])
           (@rev Unstructured) GetName
           (fun objects => inr (String.concat "," (map GetName objects)))
           (fun _ _ _ n => (inr "sha256:0a", S n)) (fun yml => "digest of " ++ yml)
           "v1" "2021-10-01T00:00:00Z" pushFlags "oci://registry/repo:v1" []
           "oci://registry/repo:v1" emptyPushRun Hflags eq_refl).
Defined.
